(** * my-news-app2: the fetch / normalize / cache pipeline of [App.tsx],
      the read and hidden trackers, and the tab editor of
      [TabSettingsModal.tsx], embedded shallowly.

    Conventions of the embedding.
    - A JavaScript string is a Rocq [string] holding the UTF-8 bytes of the
      text.  Prefix tests, searching, splitting, joining and percent-encoding
      act on well-formed text exactly as they do on UTF-16 code units.
    - A number that holds a time in milliseconds or a count is a [Z].
    - [undefined] / [null] / a missing JSON field is [None]; the truthiness
      test of JavaScript on such a field is [truthy].
    - The object used as the per-tab cache is a [gmap string CacheEntry]
      (own properties only), the two [Set]s are [gset string].
    - A thrown exception inside the [try] block of [fetchNews] is [None]. *)

From Stdlib Require Import ZArith Ascii Sorted.
From stdpp Require Import gmap strings list fin_maps pretty sorting.

Local Open Scope Z_scope.

(** ** JavaScript string primitives used by the sources *)

Module Js.

(** [s.startsWith(p)] *)
Fixpoint startsWith (s p : string) {struct p} : bool :=
  match p with
  | EmptyString => true
  | String a p' =>
      match s with
      | EmptyString => false
      | String b s' => Ascii.eqb a b && startsWith s' p'
      end
  end.

(** [s.includes(p)] *)
Fixpoint includes (s p : string) : bool :=
  startsWith s p ||
  match s with
  | EmptyString => false
  | String _ s' => includes s' p
  end.

(** [s.indexOf(p)], [None] standing for -1 *)
Fixpoint indexOf (s p : string) : option nat :=
  if startsWith s p then Some 0%nat
  else match s with
       | EmptyString => None
       | String _ s' => S <$> indexOf s' p
       end.

(** [s.lastIndexOf(p)], [None] standing for -1 *)
Fixpoint lastIndexOf (s p : string) : option nat :=
  match s with
  | EmptyString => if startsWith s p then Some 0%nat else None
  | String _ s' =>
      match lastIndexOf s' p with
      | Some i => Some (S i)
      | None => if startsWith s p then Some 0%nat else None
      end
  end.

(** the first [n] bytes, and what follows them *)
Fixpoint takeS (n : nat) (s : string) : string :=
  match n, s with
  | S n', String c s' => String c (takeS n' s')
  | _, _ => EmptyString
  end.

Fixpoint dropS (n : nat) (s : string) : string :=
  match n, s with
  | S n', String _ s' => dropS n' s'
  | _, _ => s
  end.

(** [s.split(sep)] for a non-empty separator: the occurrences of [sep] are
    found from left to right, each search resuming after the previous
    match.  The fuel is the length of [s]; every match consumes at least
    one byte. *)
Fixpoint split_go (fuel : nat) (s sep : string) : list string :=
  match indexOf s sep, fuel with
  | Some i, S fuel' =>
      takeS i s :: split_go fuel' (dropS (i + String.length sep) s) sep
  | _, _ => [s]
  end.

Definition split (s sep : string) : list string :=
  split_go (String.length s) s sep.

(** [parts.join(sep)] *)
Fixpoint join (parts : list string) (sep : string) : string :=
  match parts with
  | [] => EmptyString
  | [p] => p
  | p :: rest => p +:+ sep +:+ join rest sep
  end.

(** [parts.pop()]: the removed last element ([None] for [undefined]) and
    the array that is left. *)
Definition pop {A} (parts : list A) : option A * list A :=
  (last parts, removelast parts).

(** *** White space, [trim] *)

Definition byte (c : ascii) : N := N_of_ascii c.

(** WhiteSpace and LineTerminator code points of ECMAScript, as UTF-8:
    U+0009..U+000D, U+0020 | U+00A0 | U+1680, U+2000..U+200A, U+2028,
    U+2029, U+202F, U+205F, U+3000, U+FEFF. *)
Definition is_ws1 (a : ascii) : bool :=
  let x := byte a in ((9 <=? x) && (x <=? 13) || (x =? 32))%N.

Definition is_ws2 (a b : ascii) : bool :=
  ((byte a =? 194) && (byte b =? 160))%N.

Definition is_ws3 (a b c : ascii) : bool :=
  let x := byte a in let y := byte b in let z := byte c in
  ((x =? 225) && (y =? 154) && (z =? 128)
   || (x =? 226) && (y =? 128)
        && ((128 <=? z) && (z <=? 138) || (z =? 168) || (z =? 169) || (z =? 175))
   || (x =? 226) && (y =? 129) && (z =? 159)
   || (x =? 227) && (y =? 128) && (z =? 128)
   || (x =? 239) && (y =? 187) && (z =? 191))%N.

(** number of bytes of the white-space character [s] starts with, 0 if it
    starts with none *)
Definition ws_head (s : string) : nat :=
  match s with
  | String a (String b (String c _)) =>
      if is_ws1 a then 1 else if is_ws2 a b then 2
      else if is_ws3 a b c then 3 else 0
  | String a (String b EmptyString) =>
      if is_ws1 a then 1 else if is_ws2 a b then 2 else 0
  | String a EmptyString => if is_ws1 a then 1 else 0
  | EmptyString => 0
  end%nat.

(** the same at the end of a text, read on the reversed bytes *)
Definition ws_last (r : string) : nat :=
  match r with
  | String c (String b (String a _)) =>
      if is_ws1 c then 1 else if is_ws2 b c then 2
      else if is_ws3 a b c then 3 else 0
  | String c (String b EmptyString) =>
      if is_ws1 c then 1 else if is_ws2 b c then 2 else 0
  | String c EmptyString => if is_ws1 c then 1 else 0
  | EmptyString => 0
  end%nat.

Fixpoint strip (head : string -> nat) (fuel : nat) (s : string) : string :=
  match fuel with
  | O => s
  | S fuel' =>
      match head s with
      | O => s
      | n => strip head fuel' (dropS n s)
      end
  end.

Definition trimStart (s : string) : string :=
  strip ws_head (String.length s) s.

Definition trimEnd (s : string) : string :=
  String.rev (strip ws_last (String.length s) (String.rev s)).

(** [s.trim()] *)
Definition trim (s : string) : string := trimEnd (trimStart s).

(** a text made of white-space characters only *)
Inductive blank : string -> Prop :=
  | blank_nil : blank EmptyString
  | blank_cons (ws rest : string) :
      (0 < ws_head ws)%nat -> ws_head ws = String.length ws ->
      blank rest -> blank (ws +:+ rest).

(** *** [encodeURIComponent] *)

Definition hex_digit (n : N) : ascii :=
  ascii_of_N (if (n <? 10)%N then 48 + n else 55 + n).

(** A-Z a-z 0-9 - _ . ! ~ * ' ( ) are kept *)
Definition uri_unreserved (c : ascii) : bool :=
  let x := byte c in
  ((65 <=? x) && (x <=? 90) || (97 <=? x) && (x <=? 122)
   || (48 <=? x) && (x <=? 57)
   || (x =? 45) || (x =? 95) || (x =? 46) || (x =? 33) || (x =? 126)
   || (x =? 42) || (x =? 39) || (x =? 40) || (x =? 41))%N.

Definition percent (c : ascii) : string :=
  String "%" (String (hex_digit (byte c / 16)) (String (hex_digit (byte c mod 16)) EmptyString)).

(** Every byte of the UTF-8 form of the text that is not unreserved
    becomes [%XX] (upper-case hexadecimal). *)
Fixpoint encodeURIComponent (s : string) : string :=
  match s with
  | EmptyString => EmptyString
  | String c s' =>
      (if uri_unreserved c then String c EmptyString else percent c)
      +:+ encodeURIComponent s'
  end.

(** *** Summary helpers *)

(** [s.replace(/<[^>]*>?/gm, '')]: from each [<] up to and including the
    next [>], or to the end of the text when no [>] follows, is removed. *)
Fixpoint stripTags_go (inTag : bool) (s : string) : string :=
  match s with
  | EmptyString => EmptyString
  | String c s' =>
      if inTag then stripTags_go (negb (Ascii.eqb c ">")) s'
      else if Ascii.eqb c "<" then stripTags_go true s'
      else String c (stripTags_go false s')
  end.

Definition stripTags (s : string) : string := stripTags_go false s.

(** The length of the text in UTF-16 code units, which is what [length]
    and [substring] count: a byte [10xxxxxx] continues the character before
    it, a lead byte from 0xF0 starts a character of two code units (a
    surrogate pair), any other byte one of a single code unit. *)
Fixpoint codeUnits (s : string) : nat :=
  match s with
  | EmptyString => 0%nat
  | String c s' =>
      let x := byte c in
      if ((128 <=? x) && (x <? 192))%N then codeUnits s'
      else ((if (240 <=? x)%N then 2 else 1) + codeUnits s')%nat
  end.

(** the byte at [i], 0 past the end *)
Definition byteAt (i : nat) (s : string) : N :=
  match String.get i s with
  | Some c => byte c
  | None => 0%N
  end.

(** The first code unit of the character whose four UTF-8 bytes are given:
    its high surrogate, written as the three bytes that stand for a
    surrogate on its own. *)
Definition highSurrogate (b0 b1 b2 b3 : N) : string :=
  let cp := ((b0 mod 8) * 262144 + (b1 mod 64) * 4096 + (b2 mod 64) * 64 + b3 mod 64)%N in
  let high := (55296 + (cp - 65536) / 1024)%N in
  String (ascii_of_N 237)
    (String (ascii_of_N (128 + (high / 64) mod 64))
       (String (ascii_of_N (128 + high mod 64)) EmptyString)).

(** [s.substring(0, n)], [n] counted in UTF-16 code units.  A character of
    two code units that starts at the last unit is cut in two: its high
    surrogate is the last unit of the result. *)
Fixpoint substring0 (n : nat) (s : string) : string :=
  match s with
  | EmptyString => EmptyString
  | String c s' =>
      let x := byte c in
      if ((128 <=? x) && (x <? 192))%N then String c (substring0 n s')
      else
        let k := if (240 <=? x)%N then 2%nat else 1%nat in
        if (k <=? n)%nat then String c (substring0 (n - k) s')
        else
          match n with
          | 1%nat => highSurrogate x (byteAt 0 s') (byteAt 1 s') (byteAt 2 s')
          | _ => EmptyString
          end
  end.

(** *** Truthiness of an optional string field *)

Definition truthy (o : option string) : bool :=
  match o with
  | Some (String _ _) => true
  | _ => false
  end.

(** [a || b] where [b] is a string *)
Definition orElse (a : option string) (b : string) : string :=
  match a with
  | Some (String c s) => String c s
  | _ => b
  end.

End Js.

(** ** Data model ([types.ts], the rss2json response, the state of [App]) *)

(** [TabConfig] *)
Module Tab.
Record t := mk { id : string; label : string; icon : string; keyword : string }.
End Tab.

(** [NewsArticle] *)
Module Article.
Record t := mk {
  id : string;
  category : string;
  title : string;
  date : string;
  pubDate : string;
  summary : string;
  imageUrl : string;
  source : string;
  link : string
}.
End Article.

(** An element of [data.items], with the fields typed as rss2json sends
    them: [title], [pubDate] and [link] are strings, the others may be
    missing; [enclosure] is the optional object whose [link] may be
    missing too. *)
Module Item.
Record t := mk {
  title : string;
  author : option string;
  description : option string;
  content : option string;
  thumbnail : option string;
  enclosure : option (option string);
  pubDate : string;
  guid : option string;
  link : string
}.
(** [item.enclosure?.link] *)
Definition enclosure_link (item : t) : option string :=
  match enclosure item with
  | Some l => l
  | None => None
  end.
End Item.

(** The JSON body of the rss2json answer: [status], [message],
    [feed.title], [items]. *)
Module Api.
Record t := mk {
  status : string;
  message : option string;
  feed_title : option string;
  items : list Item.t
}.
End Api.

(** What [await fetch(...)] followed by [await response.json()] can give. *)
Inductive Response :=
  | NetworkFailure            (* [fetch] rejects *)
  | HttpError                 (* [response.ok] is false *)
  | InvalidBody               (* [response.json()] rejects *)
  | Body (d : Api.t).

(** An entry of [newsCache.current] *)
Record CacheEntry := mkEntry { data : list Article.t; timestamp : Z }.

(** [newsCache.current] is a plain object used as a map from tab ids, and
    the map of the model holds the entries stored in it.  The object
    answers [newsCache.current[tabId]] also with what it inherits from
    [Object.prototype]: under one of the names below, with no entry stored,
    the code finds the inherited member where the map has nothing.  The
    map is the object for every other tab id, which includes every id the
    application makes itself ([tab-] and a number); what is stated about a
    tab without a stored entry is stated for those. *)
Definition OBJECT_MEMBERS : list string :=
  [ "constructor"; "__defineGetter__"; "__defineSetter__"; "hasOwnProperty";
    "__lookupGetter__"; "__lookupSetter__"; "isPrototypeOf";
    "propertyIsEnumerable"; "toString"; "valueOf"; "__proto__";
    "toLocaleString" ].

Definition inheritedName (tabId : string) : bool :=
  bool_decide (tabId ∈ OBJECT_MEMBERS).

(** The state of the [App] component: its [useState] cells and the
    [newsCache] ref. *)
Record App := mkApp {
  tabs : list Tab.t;
  activeTabId : string;
  newsList : list Article.t;
  loading : bool;
  error : option string;
  newsCache : gmap string CacheEntry;
  isSettingsOpen : bool;
  readIds : gset string;
  hiddenSources : gset string;
  showHiddenArticles : bool;
  isDarkMode : bool;
  maxTabs : Z
}.

(** The state setters; those the code calls with an updater function take
    the function. *)
Definition setTabs (v : list Tab.t) (st : App) : App :=
  mkApp v (activeTabId st) (newsList st) (loading st) (error st) (newsCache st)
        (isSettingsOpen st) (readIds st) (hiddenSources st) (showHiddenArticles st) (isDarkMode st) (maxTabs st).
Definition setActiveTabId (v : string) (st : App) : App :=
  mkApp (tabs st) v (newsList st) (loading st) (error st) (newsCache st)
        (isSettingsOpen st) (readIds st) (hiddenSources st) (showHiddenArticles st) (isDarkMode st) (maxTabs st).
Definition setNewsList (v : list Article.t) (st : App) : App :=
  mkApp (tabs st) (activeTabId st) v (loading st) (error st) (newsCache st)
        (isSettingsOpen st) (readIds st) (hiddenSources st) (showHiddenArticles st) (isDarkMode st) (maxTabs st).
Definition setLoading (v : bool) (st : App) : App :=
  mkApp (tabs st) (activeTabId st) (newsList st) v (error st) (newsCache st)
        (isSettingsOpen st) (readIds st) (hiddenSources st) (showHiddenArticles st) (isDarkMode st) (maxTabs st).
Definition setError (v : option string) (st : App) : App :=
  mkApp (tabs st) (activeTabId st) (newsList st) (loading st) v (newsCache st)
        (isSettingsOpen st) (readIds st) (hiddenSources st) (showHiddenArticles st) (isDarkMode st) (maxTabs st).
Definition setNewsCache (v : gmap string CacheEntry) (st : App) : App :=
  mkApp (tabs st) (activeTabId st) (newsList st) (loading st) (error st) v
        (isSettingsOpen st) (readIds st) (hiddenSources st) (showHiddenArticles st) (isDarkMode st) (maxTabs st).
Definition setIsSettingsOpen (v : bool) (st : App) : App :=
  mkApp (tabs st) (activeTabId st) (newsList st) (loading st) (error st) (newsCache st)
        v (readIds st) (hiddenSources st) (showHiddenArticles st) (isDarkMode st) (maxTabs st).
Definition setReadIds (f : gset string -> gset string) (st : App) : App :=
  mkApp (tabs st) (activeTabId st) (newsList st) (loading st) (error st) (newsCache st)
        (isSettingsOpen st) (f (readIds st)) (hiddenSources st) (showHiddenArticles st) (isDarkMode st) (maxTabs st).
Definition setHiddenSources (f : gset string -> gset string) (st : App) : App :=
  mkApp (tabs st) (activeTabId st) (newsList st) (loading st) (error st) (newsCache st)
        (isSettingsOpen st) (readIds st) (f (hiddenSources st)) (showHiddenArticles st) (isDarkMode st) (maxTabs st).
Definition setShowHiddenArticles (f : bool -> bool) (st : App) : App :=
  mkApp (tabs st) (activeTabId st) (newsList st) (loading st) (error st) (newsCache st)
        (isSettingsOpen st) (readIds st) (hiddenSources st) (f (showHiddenArticles st)) (isDarkMode st) (maxTabs st).
Definition setIsDarkMode (f : bool -> bool) (st : App) : App :=
  mkApp (tabs st) (activeTabId st) (newsList st) (loading st) (error st) (newsCache st)
        (isSettingsOpen st) (readIds st) (hiddenSources st) (showHiddenArticles st) (f (isDarkMode st)) (maxTabs st).
Definition setMaxTabs (v : Z) (st : App) : App :=
  mkApp (tabs st) (activeTabId st) (newsList st) (loading st) (error st) (newsCache st)
        (isSettingsOpen st) (readIds st) (hiddenSources st) (showHiddenArticles st) (isDarkMode st) v.

(** ** Constants of [App.tsx] *)

Definition CACHE_DURATION : Z := 5 * 60 * 1000.

Definition SEPARATOR : string := " - ".
Definition UNKNOWN_SOURCE : string := "Unknown Source".
Definition NO_SUMMARY : string := "記事の要約はありません。".
Definition STALE_MESSAGE : string :=
  "最新の取得に失敗しましたが、以前のデータを表示しています。".
Definition FAILURE_MESSAGE : string :=
  "ニュースの読み込みに失敗しました。時間をおいて再試行してください。".

(** ** [Array.prototype.sort] and [slice]

    ECMAScript requires [sort] to be stable, and the result is determined
    by the comparator whenever the comparator is consistent.  The model is
    the stable insertion sort: an element goes before the first later
    element it does not have to follow ([compareFn a b <= 0]). *)

Section ArraySort.
Context {A : Type} (compareFn : A -> A -> Z).

Fixpoint sort_insert (a : A) (sorted : list A) : list A :=
  match sorted with
  | [] => [a]
  | b :: rest =>
      if compareFn a b <=? 0 then a :: sorted else b :: sort_insert a rest
  end.

Fixpoint sort (l : list A) : list A :=
  match l with
  | [] => []
  | a :: rest => sort_insert a (sort rest)
  end.

(** the comparator orders the elements of [l] by decreasing [key] *)
Definition by_key_desc (key : A -> Z) (l : list A) : Prop :=
  forall a b, a ∈ l -> b ∈ l -> compareFn a b = key b - key a.
End ArraySort.

(** [l.slice(0, n)] *)
Definition slice0 {A} (n : nat) (l : list A) : list A := take n l.

(** ** [getRssUrl] *)

Definition SEARCH_PREFIX : string := "https://news.google.com/rss/search?q=".
Definition SEARCH_LOCALE : string := "&hl=ja&gl=JP&ceid=JP:ja".

Definition getRssUrl (keyword : string) : string :=
  if Js.startsWith keyword "http://" || Js.startsWith keyword "https://"
  then keyword
  else SEARCH_PREFIX +:+ Js.encodeURIComponent keyword +:+ SEARCH_LOCALE.

(** the address handed to [fetch] *)
Definition apiUrl (rssUrl : string) : string :=
  "https://api.rss2json.com/v1/api.json?rss_url=" +:+ Js.encodeURIComponent rssUrl.

(** ** The pipeline of [fetchNews]

    The browser services the code calls are the parameters of the section:
    - [dateParse s] is the time value of [new Date(s)], [None] for an
      invalid date (time value NaN);
    - [toISOString t] and [toLocaleDateString t] are the two renderings of
      the date with time value [t] ([toLocaleDateString] with the locale
      ja-JP);
    - [firstImgSrc html] is the [src] attribute of the first [img] element
      of the document [DOMParser] builds from [html], [None] when there is
      no such element or it has no [src]. *)

Section Pipeline.
Context (dateParse : string -> option Z)
        (toISOString : Z -> string)
        (toLocaleDateString : Z -> string)
        (firstImgSrc : string -> option string).

Definition extractImageFromHtml (htmlContent : string) : option string :=
  match htmlContent with
  | EmptyString => None
  | _ => firstImgSrc htmlContent
  end.

(** [cleanSummary] *)
Definition cleanSummary (item : Item.t) : string :=
  match Item.description item with
  | Some (String c d) =>
      Js.substring0 100 (Js.stripTags (String c d)) +:+ "..."
  | _ => NO_SUMMARY
  end.

(** The [title] and [source] variables when the image logic starts;
    [None] when [parts.pop()] gives [undefined], on which [trim] would
    throw later. *)
Definition titleAndSource (feed_title : option string) (item : Item.t)
  : option (string * string) :=
  let title := Item.title item in
  let source :=
    Js.orElse (Item.author item) (Js.orElse feed_title UNKNOWN_SOURCE) in
  if Js.includes title SEPARATOR then
    let parts := Js.split title SEPARATOR in
    match Js.pop parts with
    | (Some source, parts) => Some (Js.join parts SEPARATOR, source)
    | (None, _) => None
    end
  else Some (title, source).

Definition placeholderImage (title : string) : string :=
  "https://picsum.photos/seed/" +:+ Js.encodeURIComponent title +:+ "/800/450".

(** the image decision of the callback, steps 1 to 5 *)
Definition imageUrlOf (item : Item.t) : string :=
  let imageUrl : option string :=
    if Js.truthy (Item.thumbnail item) then Item.thumbnail item
    else if Js.truthy (Item.enclosure_link item) then Item.enclosure_link item
    else match Item.description item with
         | Some (String c d) => extractImageFromHtml (String c d)
         | _ => None
         end in
  let imageUrl : option string :=
    match Js.truthy imageUrl, Item.content item with
    | false, Some (String c d) => extractImageFromHtml (String c d)
    | _, _ => imageUrl
    end in
  Js.orElse imageUrl (placeholderImage (Item.title item)).

(** The callback of [data.items.map]; [None] when it throws:
    [toISOString] raises a RangeError on an invalid date. *)
Definition mapItem (tabId : string) (feed_title : option string)
    (index : nat) (item : Item.t) : option Article.t :=
  match titleAndSource feed_title item, dateParse (Item.pubDate item) with
  | Some (title, source), Some t =>
      Some (Article.mk
        (Js.orElse (Item.guid item)
           (tabId +:+ "-" +:+ pretty index +:+ "-" +:+ Item.pubDate item))
        tabId
        title
        (toLocaleDateString t)
        (toISOString t)
        (cleanSummary item)
        (imageUrlOf item)
        (Js.trim source)
        (Item.link item))
  | _, _ => None
  end.

(** [data.items.map(callback)], the indices starting at [index] *)
Fixpoint mapItems (tabId : string) (feed_title : option string)
    (index : nat) (items : list Item.t) : option (list Article.t) :=
  match items with
  | [] => Some []
  | item :: rest =>
      match mapItem tabId feed_title index item,
            mapItems tabId feed_title (S index) rest with
      | Some a, Some l => Some (a :: l)
      | _, _ => None
      end
  end.

(** [new Date(b.pubDate).getTime() - new Date(a.pubDate).getTime()];
    a NaN result counts as +0 for [sort]. *)
Definition compareFn (a b : Article.t) : Z :=
  match dateParse (Article.pubDate b), dateParse (Article.pubDate a) with
  | Some tb, Some ta => tb - ta
  | _, _ => 0
  end.

(** the time value of the [pubDate] of an article, for the statements *)
Definition pubTime (a : Article.t) : Z := default 0 (dateParse (Article.pubDate a)).

(** The [try] block up to the cache store: [Some mappedNews] when it gets
    there, [None] when something throws on the way. *)
Definition tryBlock (tabId : string) (response : Response)
  : option (list Article.t) :=
  match response with
  | Body d =>
      if String.eqb (Api.status d) "ok" then
        match mapItems tabId (Api.feed_title d) 0 (Api.items d) with
        | Some mapped => Some (slice0 12 (sort compareFn mapped))
        | None => None
        end
      else None
  | _ => None
  end.

(** [fetchNews] runs up to its first [await] and either returns there or
    is suspended on the request it issued. *)
Inductive Fetching :=
  | Returned (st : App)
  | Awaiting (st : App) (request : string).

Definition fetchNews_begin (tabId : string) (currentTabs : list Tab.t)
    (now : Z) (st : App) : Fetching :=
  let st := setError None (setLoading true st) in
  match find (fun t => String.eqb (Tab.id t) tabId) currentTabs with
  | None => Returned (setLoading false st)
  | Some activeTab =>
      match newsCache st !! tabId with
      | Some cached =>
          if now - timestamp cached <? CACHE_DURATION
          then Returned (setLoading false (setNewsList (data cached) st))
          else Awaiting st (apiUrl (getRssUrl (Tab.keyword activeTab)))
      | None => Awaiting st (apiUrl (getRssUrl (Tab.keyword activeTab)))
      end
  end.

(** The rest of [fetchNews], run when the awaited response is there;
    [now] is [Date.now()] at the cache store.  The [cached] of the catch
    block is what the map holds under [tabId], which is what the cache
    object answers for every tab id outside [OBJECT_MEMBERS]. *)
Definition fetchNews_resume (tabId : string) (response : Response)
    (now : Z) (st : App) : App :=
  setLoading false
    match tryBlock tabId response with
    | Some mappedNews =>
        setNewsList mappedNews
          (setNewsCache (<[tabId := mkEntry mappedNews now]> (newsCache st)) st)
    | None =>
        match newsCache st !! tabId with
        | Some cached => setError (Some STALE_MESSAGE) (setNewsList (data cached) st)
        | None => setError (Some FAILURE_MESSAGE) st
        end
    end.

(** A whole call with nothing else running in between: the state it
    leaves and the requests it sent.  [network] answers a request,
    [now] and [later] are the clock at the cache check and at the cache
    store. *)
Definition fetchNews (network : string -> Response) (tabId : string)
    (currentTabs : list Tab.t) (now later : Z) (st : App)
  : App * list string :=
  match fetchNews_begin tabId currentTabs now st with
  | Returned st' => (st', [])
  | Awaiting st' request =>
      (fetchNews_resume tabId (network request) later st', [request])
  end.

(** [handleSaveSettings]: the synchronous part, which ends inside the
    [fetchNews] call it makes. *)
Definition handleSaveSettings (newTabs : list Tab.t) (newMaxTabs : Z)
    (now : Z) (st : App) : Fetching :=
  let st := setMaxTabs newMaxTabs (setTabs newTabs st) in
  let st := setNewsCache ∅ st in
  let st := setNewsList [] st in
  fetchNews_begin (activeTabId st) newTabs now st.

(** The refresh buttons: [delete newsCache.current[activeTabId]] and
    then [fetchNews(activeTabId)]. *)
Definition forceRefresh (now : Z) (st : App) : Fetching :=
  let st := setNewsCache (delete (activeTabId st) (newsCache st)) st in
  fetchNews_begin (activeTabId st) (tabs st) now st.

End Pipeline.

(** ** What [App] renders in its main area *)

Definition visibleNews (st : App) : list Article.t :=
  if showHiddenArticles st then newsList st
  else filter (fun a => Article.source a ∉ hiddenSources st) (newsList st).

Inductive MainArea :=
  | Spinner
  | ErrorPanel (message : string)          (* the message and the retry button *)
  | ArticleGrid (cards : list Article.t).

(** [loading ? ... : error ? ... : ...] *)
Definition render (st : App) : MainArea :=
  if loading st then Spinner
  else match error st with
       | Some (String c m) => ErrorPanel (String c m)
       | _ => ArticleGrid (visibleNews st)
       end.

(** ** The read and hidden trackers *)

Definition markAsRead (id : string) (st : App) : App :=
  setReadIds (fun prev => prev ∪ {[id]}) st.

Definition hideSource (source : string) (st : App) : App :=
  setHiddenSources (fun prev => prev ∪ {[source]}) st.

Definition unhideSource (source : string) (st : App) : App :=
  setHiddenSources (fun prev => prev ∖ {[source]}) st.

Definition resetHiddenSources (st : App) : App :=
  setShowHiddenArticles (fun _ => false) (setHiddenSources (fun _ => ∅) st).

(** ** [parseInt] with no radix argument

    Leading white space is skipped, a sign is read, a [0x] or [0X] prefix
    selects radix 16, and the longest run of digits is the value; no digit
    at all gives NaN, here [None].  The value is exact here, where the
    engine rounds beyond 2^53; the sources only compare it with 1 and 20. *)

Module JsNumber.

Definition digit (radix : Z) (c : ascii) : option Z :=
  let x := Z.of_N (Js.byte c) in
  let v := if (48 <=? x) && (x <=? 57) then x - 48
           else if (97 <=? x) && (x <=? 122) then x - 87
           else if (65 <=? x) && (x <=? 90) then x - 55
           else radix in
  if v <? radix then Some v else None.

Fixpoint digits (radix : Z) (acc : option Z) (s : string) : option Z :=
  match s with
  | EmptyString => acc
  | String c s' =>
      match digit radix c with
      | Some d => digits radix (Some (default 0 acc * radix + d)) s'
      | None => acc
      end
  end.

Definition parseInt (input : string) : option Z :=
  let s := Js.trimStart input in
  let '(negative, s) :=
    match s with
    | String "-" r => (true, r)
    | String "+" r => (false, r)
    | _ => (false, s)
    end in
  let '(radix, s) :=
    if Js.startsWith s "0x" || Js.startsWith s "0X"
    then (16, Js.dropS 2 s) else (10, s) in
  match digits radix None s with
  | Some n => Some (if negative : bool then - n else n)
  | None => None
  end.

End JsNumber.

(** ** The tab editor ([TabSettingsModal]) *)

Module Modal.

Record t := mk {
  editingTabs : list Tab.t;
  editingMaxTabs : Z;
  draggedIndex : option nat;
  isDragEnabled : bool
}.

Definition setEditingTabs (v : list Tab.t) (m : t) : t :=
  mk v (editingMaxTabs m) (draggedIndex m) (isDragEnabled m).
Definition setEditingMaxTabs (v : Z) (m : t) : t :=
  mk (editingTabs m) v (draggedIndex m) (isDragEnabled m).

(** The effect that runs when the modal opens: the working copy. *)
Definition open (tabs : list Tab.t) (maxTabs : Z) (m : t) : t :=
  setEditingMaxTabs maxTabs (setEditingTabs tabs m).

(** [keyof TabConfig] *)
Inductive Field := Id | Label | Icon | Keyword.

Definition setField (field : Field) (value : string) (tab : Tab.t) : Tab.t :=
  match field with
  | Id => Tab.mk value (Tab.label tab) (Tab.icon tab) (Tab.keyword tab)
  | Label => Tab.mk (Tab.id tab) value (Tab.icon tab) (Tab.keyword tab)
  | Icon => Tab.mk (Tab.id tab) (Tab.label tab) value (Tab.keyword tab)
  | Keyword => Tab.mk (Tab.id tab) (Tab.label tab) (Tab.icon tab) value
  end.

(** [handleChange]; the inputs only pass the index of a listed tab. *)
Definition handleChange (index : nat) (field : Field) (value : string) (m : t) : t :=
  setEditingTabs (alter (setField field value) index (editingTabs m)) m.

Definition NEW_TAB_LABEL : string := "新規タブ".
Definition NEW_TAB_KEYWORD : string := "ニュース".

(** [handleAddTab]; [now] is [Date.now()]. *)
Definition handleAddTab (now : Z) (m : t) : t :=
  if Z.of_nat (length (editingTabs m)) >=? editingMaxTabs m then m
  else
    let newTab := Tab.mk ("tab-" +:+ pretty now) NEW_TAB_LABEL "fa-hashtag" NEW_TAB_KEYWORD in
    setEditingTabs (editingTabs m ++ [newTab]) m.

(** [handleDeleteTab]: the alert and nothing else when one tab or none is
    left, otherwise the list without its element at [index]. *)
Definition handleDeleteTab (index : nat) (m : t) : t :=
  if (length (editingTabs m) <=? 1)%nat then m
  else setEditingTabs (delete index (editingTabs m)) m.

(** [onChange] of the number input for the maximum *)
Definition handleMaxTabsChange (value : string) (m : t) : t :=
  match JsNumber.parseInt value with
  | Some val => if (val >=? 1) && (val <=? 20) then setEditingMaxTabs val m else m
  | None => m
  end.

(** [handleSave] hands these two to [onSave]. *)
Definition handleSave (m : t) : list Tab.t * Z := (editingTabs m, editingMaxTabs m).

End Modal.

(** ** The user's actions on [App] *)

Inductive UserAction :=
  | SwitchTab (tabId : string)
  | OpenArticle (article : Article.t)
  | HideSource (source : string)
  | UnhideSource (source : string)
  | ResetHiddenSources
  | ToggleShowHidden
  | ToggleDarkMode
  | OpenSettings
  | CloseSettings
  | SaveSettings (newTabs : list Tab.t) (newMaxTabs : Z)
  | Refresh.

(** The handler of each action, run to its end or to the first [await] of
    the [fetchNews] call it starts. *)
Definition act (action : UserAction) (now : Z) (st : App) : Fetching :=
  match action with
  | SwitchTab tabId =>
      if String.eqb tabId (activeTabId st) then Returned st
      else fetchNews_begin tabId (tabs st) now (setActiveTabId tabId st)
  | OpenArticle article =>
      if bool_decide (Article.source article ∈ hiddenSources st) then Returned st
      else Returned (markAsRead (Article.id article) st)
  | HideSource source => Returned (hideSource source st)
  | UnhideSource source => Returned (unhideSource source st)
  | ResetHiddenSources => Returned (resetHiddenSources st)
  | ToggleShowHidden => Returned (setShowHiddenArticles negb st)
  | ToggleDarkMode => Returned (setIsDarkMode negb st)
  | OpenSettings => Returned (setIsSettingsOpen true st)
  | CloseSettings => Returned (setIsSettingsOpen false st)
  | SaveSettings newTabs newMaxTabs =>
      match handleSaveSettings newTabs newMaxTabs now st with
      | Returned st' => Returned (setIsSettingsOpen false st')
      | Awaiting st' request => Awaiting (setIsSettingsOpen false st') request
      end
  | Refresh => forceRefresh now st
  end.

Definition stateOf (f : Fetching) : App :=
  match f with
  | Returned st => st
  | Awaiting st _ => st
  end.

(** ** The readings of the specification that are compared with the code *)

Module Spec.

(** The image chain as the specification words it: the candidates in
    order, the first one that is there (a non-empty string) wins. *)
Fixpoint firstMatch (candidates : list (option string)) : option string :=
  match candidates with
  | [] => None
  | c :: rest => if Js.truthy c then c else firstMatch rest
  end.

Definition imageUrl (firstImgSrc : string -> option string) (item : Item.t) : string :=
  default (placeholderImage (Item.title item))
    (firstMatch
       [ Item.thumbnail item;
         Item.enclosure item ≫= id;
         Item.description item ≫= extractImageFromHtml firstImgSrc;
         Item.content item ≫= extractImageFromHtml firstImgSrc ]).

(** The title and source as the specification words them: cut at the last
    occurrence of the separator. *)
Definition titleAtLast (title : string) : option (string * string) :=
  match Js.lastIndexOf title SEPARATOR with
  | Some i => Some (Js.takeS i title, Js.dropS (i + String.length SEPARATOR) title)
  | None => None
  end.

(** [setMaxTabs(n)] as the specification words it: clamped to [1, 20]. *)
Definition clampMaxTabs (n : Z) : Z := Z.max 1 (Z.min 20 n).

(** An absolute http or https URL, as the specification words the test
    of the keyword: the scheme http or https in letters of either case,
    [://], and something after it. *)
Definition lowerCase (c : ascii) : ascii :=
  let x := Js.byte c in
  if ((65 <=? x) && (x <=? 90))%N then ascii_of_N (x + 32) else c.

Fixpoint toLowerCase (s : string) : string :=
  match s with
  | EmptyString => EmptyString
  | String c s' => String (lowerCase c) (toLowerCase s')
  end.

Definition absoluteHttpUrl (keyword : string) : bool :=
  let s := toLowerCase keyword in
  (Js.startsWith s "http://" && (7 <? String.length s)%nat)
  || (Js.startsWith s "https://" && (8 <? String.length s)%nat).

(** Invalidation of one tab's cache entry, as the specification words the
    effect of a changed keyword. *)
Definition invalidate (tabId : string) (cache : gmap string CacheEntry)
  : gmap string CacheEntry := delete tabId cache.

End Spec.

(** ** A concrete browser for the sample runs

    ISO-8601 rendering and parsing of time values for the years 0000 to
    9999 (the civil-calendar conversion by eras of 400 years), the ja-JP
    date, and a scanner for the first [img] tag of simple markup. *)

Module Browser.

Definition MS_PER_DAY : Z := 86400000.

Definition daysFromCivil (y m d : Z) : Z :=
  let y := if m <=? 2 then y - 1 else y in
  let era := y / 400 in
  let yoe := y - era * 400 in
  let doy := (153 * (if m >? 2 then m - 3 else m + 9) + 2) / 5 + d - 1 in
  let doe := yoe * 365 + yoe / 4 - yoe / 100 + doy in
  era * 146097 + doe - 719468.

Definition civilFromDays (z : Z) : Z * Z * Z :=
  let z := z + 719468 in
  let era := z / 146097 in
  let doe := z - era * 146097 in
  let yoe := (doe - doe / 1460 + doe / 36524 - doe / 146096) / 365 in
  let doy := doe - (365 * yoe + yoe / 4 - yoe / 100) in
  let mp := (5 * doy + 2) / 153 in
  let d := doy - (153 * mp + 2) / 5 + 1 in
  let m := if mp <? 10 then mp + 3 else mp - 9 in
  (if m <=? 2 then yoe + era * 400 + 1 else yoe + era * 400, m, d).

Fixpoint zeros (n : nat) : string :=
  match n with
  | O => EmptyString
  | S n' => String "0" (zeros n')
  end.

Definition pad (width : nat) (n : Z) : string :=
  let s := pretty n in zeros (width - String.length s) +:+ s.

Definition toISOString (t : Z) : string :=
  let '(y, m, d) := civilFromDays (t / MS_PER_DAY) in
  let ms := t mod MS_PER_DAY in
  pad 4 y +:+ "-" +:+ pad 2 m +:+ "-" +:+ pad 2 d +:+ "T"
  +:+ pad 2 (ms / 3600000) +:+ ":" +:+ pad 2 (ms / 60000 mod 60) +:+ ":"
  +:+ pad 2 (ms / 1000 mod 60) +:+ "." +:+ pad 3 (ms mod 1000) +:+ "Z".

Definition toLocaleDateString (t : Z) : string :=
  let '(y, m, d) := civilFromDays (t / MS_PER_DAY) in
  pretty y +:+ "/" +:+ pretty m +:+ "/" +:+ pretty d.

(** the decimal number written by all of [s] *)
Fixpoint allDigits (s : string) : bool :=
  match s with
  | EmptyString => true
  | String c s' => bool_decide (is_Some (JsNumber.digit 10 c)) && allDigits s'
  end.

Definition number (s : string) : option Z :=
  if allDigits s then JsNumber.digits 10 None s else None.

Definition field (start len : nat) (s : string) : option Z :=
  number (Js.takeS len (Js.dropS start s)).

Definition charAt (i : nat) (s : string) : string := Js.takeS 1 (Js.dropS i s).

(** [YYYY-MM-DDTHH:mm:ss.sssZ] and nothing else *)
Definition dateParse (s : string) : option Z :=
  if bool_decide (String.length s = 24%nat
                  ∧ charAt 4 s = "-" ∧ charAt 7 s = "-" ∧ charAt 10 s = "T"
                  ∧ charAt 13 s = ":" ∧ charAt 16 s = ":" ∧ charAt 19 s = "."
                  ∧ charAt 23 s = "Z")
  then
    y ← field 0 4 s; m ← field 5 2 s; d ← field 8 2 s;
    h ← field 11 2 s; mi ← field 14 2 s; sec ← field 17 2 s; f ← field 20 3 s;
    if (1 <=? m) && (m <=? 12) && (1 <=? d) && (d <=? 31)
       && (h <? 24) && (mi <? 60) && (sec <? 60)
    then Some (daysFromCivil y m d * MS_PER_DAY
               + h * 3600000 + mi * 60000 + sec * 1000 + f)
    else None
  else None.

Definition QUOTE : string := String (ascii_of_N 34) EmptyString.

(** the text between [open] and the next [close] after it *)
Definition between (open close s : string) : option string :=
  i ← Js.indexOf s open;
  let rest := Js.dropS (i + String.length open) s in
  j ← Js.indexOf rest close;
  Some (Js.takeS j rest).

(** the quoted [src] of the first [<img ...>] of the markup *)
Definition firstImgSrc (html : string) : option string :=
  tag ← between "<img" ">" html;
  between ("src=" +:+ QUOTE) QUOTE tag.

End Browser.

(** ** Sample data for the runs below *)

Module Sample.

(** [DEFAULT_TABS] of [constants.ts] *)
Definition DEFAULT_TABS : list Tab.t :=
  [ Tab.mk "tab-1" "バス減便" "fa-bus" "バス 減便";
    Tab.mk "tab-2" "バス実証実験" "fa-flask" "バス 実証実験";
    Tab.mk "tab-3" "バス自動運転" "fa-robot" "バス 自動運転";
    Tab.mk "tab-4" "ガジェット" "fa-laptop" "https://www.gizmodo.jp/index.xml";
    Tab.mk "tab-5" "多摩の歴史" "fa-landmark" "多摩 歴史" ].

(** an item with a title and a date and nothing else *)
Definition plain (title pubDate : string) : Item.t :=
  Item.mk title None None None None None pubDate None "https://example.com/article".

Definition headline : Item.t :=
  plain "Local bus cuts - Example Times" "2024-01-15T08:30:00.000Z".

Definition signed : Item.t :=
  Item.mk "Timetable change" (Some "Jane Doe") None None None None
    "2024-01-15T08:30:00.000Z" None "https://example.com/article".

(** two occurrences of the separator that share a blank *)
Definition overlapping : Item.t :=
  plain "Tama line - - Example Times" "2024-01-15T08:30:00.000Z".


(** an enclosure with a link, and an [img] tag in the content as well *)
Definition enclosed : Item.t :=
  Item.mk "Depot opens" None None
    (Some ("<img src=" +:+ Browser.QUOTE
           +:+ "https://example.com/p.jpg" +:+ Browser.QUOTE +:+ ">"))
    None (Some (Some "https://example.com/depot.jpg"))
    "2024-01-15T08:30:00.000Z" None "https://example.com/article".

(** an enclosure that has no link, and the same [img] tag *)
Definition enclosedNoLink : Item.t :=
  Item.mk "Depot opens" None None
    (Some ("<img src=" +:+ Browser.QUOTE
           +:+ "https://example.com/p.jpg" +:+ Browser.QUOTE +:+ ">"))
    None (Some None)
    "2024-01-15T08:30:00.000Z" None "https://example.com/article".

(** a description of 99 letters, a character of two code units and one
    more letter *)
Definition longDescription : string :=
  "aaaaaaaaaaaaaaaaaaaaaaaaaaaaaaaaaaaaaaaaaaaaaaaaaaaaaaaaaaaaaaaaaaaaaaaaaaaaaaaaaaaaaaaaaaaaaaaaaaa"
  +:+ "😀b".

Definition longItem : Item.t :=
  Item.mk "Depot opens" None (Some longDescription) None None None
    "2024-01-15T08:30:00.000Z" None "https://example.com/article".

(** the editor opened on the default tabs with the maximum 7, and with
    the maximum lowered to the number of tabs *)
Definition editor : Modal.t := Modal.mk DEFAULT_TABS 7 None false.
Definition fullEditor : Modal.t := Modal.mk DEFAULT_TABS 5 None false.
Definition lastTabEditor : Modal.t :=
  Modal.mk [Tab.mk "tab-1" "バス減便" "fa-bus" "バス 減便"] 7 None false.

(** a feed of fourteen items, not in order of date, two pairs of them
    with one same date *)
Definition feedItems : list Item.t :=
  [ plain "Route 12 returns - Tama Post" "2024-01-10T08:00:00.000Z";
    plain "Fare rise - City News" "2024-01-15T08:00:00.000Z";
    plain "Depot opens - Tama Post" "2024-01-12T08:00:00.000Z";
    plain "Driver shortage - Daily Tama" "2024-01-15T08:00:00.000Z";
    plain "Old timetable - Archive" "2023-12-01T08:00:00.000Z";
    plain "Night bus trial - Daily Tama" "2024-01-14T21:00:00.000Z";
    plain "Snow delays - City News" "2024-01-13T06:30:00.000Z";
    plain "New stop - Tama Post" "2024-01-11T08:00:00.000Z";
    plain "Older timetable - Archive" "2023-11-01T08:00:00.000Z";
    plain "Electric fleet - City News" "2024-01-09T08:00:00.000Z";
    plain "Holiday service - Daily Tama" "2024-01-08T08:00:00.000Z";
    plain "Ticket app - Tama Post" "2024-01-07T08:00:00.000Z";
    plain "Road works - City News" "2024-01-12T08:00:00.000Z";
    plain "Survey results - Daily Tama" "2024-01-16T08:00:00.000Z" ].

Definition feed : Api.t := Api.mk "ok" None (Some "Example Feed") feedItems.

(** two articles as a successful fetch leaves them in the cache *)
Definition busArticle : Article.t :=
  Article.mk "guid-bus" "tab-1" "Local bus cuts" "2024/1/15"
    "2024-01-15T08:30:00.000Z" NO_SUMMARY "https://example.com/bus.jpg"
    "Example Times" "https://example.com/bus".

Definition trialArticle : Article.t :=
  Article.mk "guid-trial" "tab-2" "Night bus trial" "2024/1/14"
    "2024-01-14T21:00:00.000Z" NO_SUMMARY "https://example.com/trial.jpg"
    "Daily Tama" "https://example.com/trial".

(** 2024-01-15T09:00:00Z, and the entries stored one minute and two minutes
    before *)
Definition NOON : Z := 1705309200000.

Definition twoEntries : gmap string CacheEntry :=
  {[ "tab-1" := mkEntry [busArticle] (NOON - 60000);
     "tab-2" := mkEntry [trialArticle] (NOON - 120000) ]}.

(** [App] showing the first tab, both tabs cached, two sources hidden *)
Definition app : App :=
  mkApp DEFAULT_TABS "tab-1" [busArticle] false None twoEntries
        false {[ "guid-bus" ]} {[ "Example Times"; "Daily Tama" ]} false false 7.

(** the same with nothing cached and the second tab selected *)
Definition appOnSecond : App :=
  mkApp DEFAULT_TABS "tab-2" [busArticle] false None ∅
        false ∅ ∅ false false 7.

(** [App] showing the second tab, ten minutes after [NOON] both entries
    are older than five minutes *)
Definition appOnTrial : App :=
  mkApp DEFAULT_TABS "tab-2" [trialArticle] false None twoEntries
        false ∅ ∅ false false 7.
Definition LATER : Z := NOON + 600000.

(** the first tab's keyword edited in the settings and saved *)
Definition editedKeyword : list Tab.t * Z :=
  Modal.handleSave
    (Modal.handleChange 0 Modal.Keyword "バス 廃止"
       (Modal.open (tabs app) (maxTabs app) editor)).

(** a feed whose second item has a date that does not parse *)
Definition brokenFeed : Api.t :=
  Api.mk "ok" None (Some "Example Feed")
    [ plain "Fare rise - City News" "2024-01-15T08:00:00.000Z";
      plain "Undated - City News" "yesterday" ].

(** a network that is down *)
Definition offline : string -> Response := fun _ => NetworkFailure.
(** a network whose server answers with an error status *)
Definition serverError : string -> Response := fun _ => HttpError.

End Sample.

(** ** Reading a percent-encoded text back

    The inverse of the encoding, used to say what the encoded keyword
    stands for: [%XY] is the byte with the hexadecimal digits [X] and [Y],
    any other byte is itself. *)

Module Uri.

Definition hexValue (c : ascii) : option N :=
  match JsNumber.digit 16 c with
  | Some v => Some (Z.to_N v)
  | None => None
  end.

Fixpoint percentDecode (s : string) : option string :=
  match s with
  | EmptyString => Some EmptyString
  | String c rest =>
      if Ascii.eqb c "%" then
        match rest with
        | String h (String l rest') =>
            match hexValue h, hexValue l, percentDecode rest' with
            | Some x, Some y, Some r => Some (String (ascii_of_N (16 * x + y)) r)
            | _, _, _ => None
            end
        | _ => None
        end
      else
        match percentDecode rest with
        | Some r => Some (String c r)
        | None => None
        end
  end.

(** the bytes that an encoded text is made of *)
Definition encoded_byte (c : ascii) : bool := Js.uri_unreserved c || Ascii.eqb c "%".

Fixpoint every (P : ascii -> bool) (s : string) : bool :=
  match s with
  | EmptyString => true
  | String c s' => P c && every P s'
  end.

End Uri.

(** ** The rest of the tab editor: reordering and the source badge *)

Module Editing.

Definition setDraggedIndex (v : option nat) (m : Modal.t) : Modal.t :=
  Modal.mk (Modal.editingTabs m) (Modal.editingMaxTabs m) v (Modal.isDragEnabled m).
Definition setIsDragEnabled (v : bool) (m : Modal.t) : Modal.t :=
  Modal.mk (Modal.editingTabs m) (Modal.editingMaxTabs m) (Modal.draggedIndex m) v.

(** [l.splice(i, 0, x)]: [x] goes in at [i], at the end when [i] is past
    it. *)
Definition spliceIn {A} (i : nat) (x : A) (l : list A) : list A :=
  take i l ++ x :: drop i l.

Inductive Direction := Up | Down.

(** [moveTab].  The two elements are read and then written back crossed.
    An index with no tab reads [undefined] and would write it into the
    array, which a list of tabs cannot hold: that is [None]. *)
Definition moveTab (index : nat) (direction : Direction) (m : Modal.t)
  : option Modal.t :=
  let tabs := Modal.editingTabs m in
  match direction, index with
  | Up, O => Some m
  | _, _ =>
      if match direction with
         | Down => Z.of_nat index =? Z.of_nat (length tabs) - 1
         | Up => false
         end
      then Some m
      else
        let targetIndex :=
          match direction with Up => (index - 1)%nat | Down => (index + 1)%nat end in
        match tabs !! index, tabs !! targetIndex with
        | Some a, Some b =>
            Some (Modal.setEditingTabs (<[targetIndex := a]> (<[index := b]> tabs)) m)
        | _, _ => None
        end
  end.

(** [handleDragStart], the styling of the dragged element left out *)
Definition handleDragStart (index : nat) (m : Modal.t) : Modal.t :=
  setDraggedIndex (Some index) m.

(** [handleDragOver]: the dragged tab is taken out and put back at
    [index].  A dragged index with no tab would put [undefined] in the
    array: [None]. *)
Definition handleDragOver (index : nat) (m : Modal.t) : option Modal.t :=
  match Modal.draggedIndex m with
  | None => Some m
  | Some draggedIndex =>
      if (draggedIndex =? index)%nat then Some m
      else
        match Modal.editingTabs m !! draggedIndex with
        | Some draggedItem =>
            Some (setDraggedIndex (Some index)
                    (Modal.setEditingTabs
                       (spliceIn index draggedItem
                          (delete draggedIndex (Modal.editingTabs m))) m))
        | None => None
        end
  end.

(** [handleDragEnd] *)
Definition handleDragEnd (m : Modal.t) : Modal.t :=
  setIsDragEnabled false (setDraggedIndex None m).

(** [isUrl], which chooses between the RSS badge and the search badge *)
Definition isUrl (str : string) : bool :=
  let s := Js.trim str in
  Js.startsWith s "http://" || Js.startsWith s "https://".

(** [editingTabs.filter((_, i) => i !== index)], as it is written *)
Fixpoint filterIndex {A} (keep : nat -> bool) (i : nat) (l : list A) : list A :=
  match l with
  | [] => []
  | x :: rest => if keep i then x :: filterIndex keep (S i) rest
                 else filterIndex keep (S i) rest
  end.

(** What the user can do in the editor, and a session of it; a step that
    would leave [undefined] in the array ends the session with [None]. *)
Inductive Action :=
  | Change (index : nat) (field : Modal.Field) (value : string)
  | AddTab (now : Z)
  | DeleteTab (index : nat)
  | MaxTabsChange (value : string)
  | MoveTab (index : nat) (direction : Direction)
  | DragStart (index : nat)
  | DragOver (index : nat)
  | DragEnd.

Definition step (a : Action) (m : Modal.t) : option Modal.t :=
  match a with
  | Change index field value => Some (Modal.handleChange index field value m)
  | AddTab now => Some (Modal.handleAddTab now m)
  | DeleteTab index => Some (Modal.handleDeleteTab index m)
  | MaxTabsChange value => Some (Modal.handleMaxTabsChange value m)
  | MoveTab index direction => moveTab index direction m
  | DragStart index => Some (handleDragStart index m)
  | DragOver index => handleDragOver index m
  | DragEnd => Some (handleDragEnd m)
  end.

Fixpoint run (actions : list Action) (m : Modal.t) : option Modal.t :=
  match actions with
  | [] => Some m
  | a :: rest =>
      match step a m with
      | Some m' => run rest m'
      | None => None
      end
  end.

End Editing.

(** ** The article card ([NewsCard]) *)

Module Card.

Definition MS_PER_DAY : Z := 1000 * 60 * 60 * 24.

(** [diffDays]; [pubTime] is the time value of [new Date(article.pubDate)],
    [None] for an invalid date, which makes every number here NaN. *)
Definition diffDays (now : Z) (pubTime : option Z) : option Z :=
  match pubTime with
  | Some t => Some (Z.abs (now - t) / MS_PER_DAY)
  | None => None
  end.

(** a comparison with NaN is false *)
Definition isNew (now : Z) (pubTime : option Z) : bool :=
  match diffDays now pubTime with
  | Some d => d <=? 1
  | None => false
  end.

Definition isOld (now : Z) (pubTime : option Z) : bool :=
  match diffDays now pubTime with
  | Some d => d >=? 7
  | None => false
  end.

(** [isNew && !isRead && !isHidden], the condition of the NEW badge *)
Definition showsNew (now : Z) (pubTime : option Z) (isRead isHidden : bool) : bool :=
  isNew now pubTime && negb isRead && negb isHidden.

(** [isRead || isOld || isHidden], the condition of the dimmed title *)
Definition dimmed (now : Z) (pubTime : option Z) (isRead isHidden : bool) : bool :=
  isRead || isOld now pubTime || isHidden.

End Card.

(** ** The stored maximum of tabs

    [App] starts with [parseInt(savedMax, 10)] when the stored text is not
    empty and the number is positive, otherwise with [DEFAULT_MAX_TABS],
    whose value [constants.ts] as it is here does not give; it is a
    parameter.  The effect stores [maxTabs.toString()]. *)

Module Storage.

(** [parseInt(input, 10)]: no [0x] prefix is read with the radix given *)
Definition parseInt10 (input : string) : option Z :=
  let s := Js.trimStart input in
  let '(negative, s) :=
    match s with
    | String "-" r => (true, r)
    | String "+" r => (false, r)
    | _ => (false, s)
    end in
  match JsNumber.digits 10 None s with
  | Some n => Some (if negative : bool then - n else n)
  | None => None
  end.

Definition loadMaxTabs (DEFAULT_MAX_TABS : Z) (savedMax : option string) : Z :=
  match savedMax with
  | Some (String c s) =>
      match parseInt10 (String c s) with
      | Some parsed => if parsed >? 0 then parsed else DEFAULT_MAX_TABS
      | None => DEFAULT_MAX_TABS
      end
  | _ => DEFAULT_MAX_TABS
  end.

(** [maxTabs.toString()] of an integer *)
Definition saveMaxTabs (maxTabs : Z) : string := pretty maxTabs.

End Storage.

(** ** The label of the active tab, and the life of [App] as events *)

(** [tabs.find(t => t.id === activeTabId)?.label || ''] *)
Definition activeTabLabel (st : App) : string :=
  match find (fun t => String.eqb (Tab.id t) (activeTabId st)) (tabs st) with
  | Some t => Tab.label t
  | None => ""
  end.

(** What happens to [App]: the user acts, or the response awaited by a
    [fetchNews] call for [tabId] arrives. *)
Inductive Event :=
  | User (action : UserAction) (now : Z)
  | Settles (tabId : string) (response : Response) (now : Z).

Section Events.
Context (dateParse : string -> option Z)
        (toISOString : Z -> string)
        (toLocaleDateString : Z -> string)
        (firstImgSrc : string -> option string).

Definition happen (e : Event) (st : App) : App :=
  match e with
  | User action now => stateOf (act action now st)
  | Settles tabId response now =>
      fetchNews_resume dateParse toISOString toLocaleDateString firstImgSrc
        tabId response now st
  end.

Definition happenAll (events : list Event) (st : App) : App :=
  foldl (fun st e => happen e st) st events.

(** the event is no answer for a tab id that names an inherited member of
    the cache object *)
Definition settlesOwn (e : Event) : Prop :=
  match e with
  | Settles tabId _ _ => inheritedName tabId = false
  | User _ _ => True
  end.

(** the event stores no entry under [tabId]: it is no answer for [tabId]
    that the [try] block takes to the end *)
Definition storesNothingUnder (tabId : string) (e : Event) : Prop :=
  match e with
  | Settles t response _ =>
      t = tabId ->
      tryBlock dateParse toISOString toLocaleDateString firstImgSrc t response = None
  | User _ _ => True
  end.

(** every cached list is at most twelve articles of the tab it is stored
    under *)
Definition cache_ok (cache : gmap string CacheEntry) : Prop :=
  forall tabId entry, cache !! tabId = Some entry ->
    (length (data entry) <= 12)%nat
    /\ Forall (fun a => Article.category a = tabId) (data entry).
End Events.

(** a text made of decimal digits only *)
Fixpoint digitsOnly (s : string) : bool :=
  match s with
  | EmptyString => true
  | String c s' => bool_decide (is_Some (JsNumber.digit 10 c)) && digitsOnly s'
  end.

(** a byte that can start a white-space character *)
Definition ws_lead (c : ascii) : bool :=
  let x := Js.byte c in
  (Js.is_ws1 c || (x =? 194) || (x =? 225) || (x =? 226) || (x =? 227) || (x =? 239))%N.

(** the list on the screen is at most twelve articles, all of one tab *)
Definition list_ok (l : list Article.t) : Prop :=
  (length l <= 12)%nat
  /\ exists tabId, Forall (fun a => Article.category a = tabId) l.

Definition app_ok (st : App) : Prop :=
  cache_ok (newsCache st) /\ list_ok (newsList st).

(** * Properties *)

(** ** The string primitives on sample texts *)

Example split_headline :
  Js.split "Local bus cuts - Example Times" " - " = ["Local bus cuts"; "Example Times"].
Proof. reflexivity. Qed.

Example split_overlap : Js.split "a - - b" " - " = ["a"; "- b"].
Proof. reflexivity. Qed.

Example split_trailing : Js.split "a - " " - " = ["a"; ""].
Proof. reflexivity. Qed.

Example trim_ideographic : Js.trim "　 Example Times
 " = "Example Times".
Proof. reflexivity. Qed.

Example encode_keyword :
  Js.encodeURIComponent "bus & rail/減便" = "bus%20%26%20rail%2F%E6%B8%9B%E4%BE%BF".
Proof. reflexivity. Qed.

Example strip_tags : Js.stripTags "<p>Hi <b>there</b></p><img src=x" = "Hi there".
Proof. reflexivity. Qed.

Example parseInt_25 : JsNumber.parseInt "25" = Some 25.
Proof. reflexivity. Qed.

Example parseInt_fraction : JsNumber.parseInt " 3.7" = Some 3.
Proof. reflexivity. Qed.

Example parseInt_empty : JsNumber.parseInt "" = None.
Proof. reflexivity. Qed.

Example parseInt_negative : JsNumber.parseInt "-4" = Some (-4).
Proof. reflexivity. Qed.

Example iso_of_time :
  Browser.toISOString 1705307400123 = "2024-01-15T08:30:00.123Z".
Proof. vm_compute. reflexivity. Qed.

Example iso_round_trip :
  Browser.dateParse (Browser.toISOString 1705307400123) = Some 1705307400123.
Proof. vm_compute. reflexivity. Qed.

Example iso_before_epoch :
  Browser.toISOString (-1) = "1969-12-31T23:59:59.999Z"
  /\ Browser.dateParse "1969-12-31T23:59:59.999Z" = Some (-1).
Proof. vm_compute. split; reflexivity. Qed.

Example iso_leap_day :
  Browser.dateParse "2024-02-29T00:00:00.000Z" = Some 1709164800000
  /\ Browser.toISOString 1709164800000 = "2024-02-29T00:00:00.000Z".
Proof. vm_compute. split; reflexivity. Qed.

Example date_invalid : Browser.dateParse "yesterday" = None.
Proof. vm_compute. reflexivity. Qed.

Example img_src_found :
  Browser.firstImgSrc
    ("<p>Hello</p><img class='a' src=" +:+ Browser.QUOTE +:+ "https://example.com/a.png"
       +:+ Browser.QUOTE +:+ " alt='x'><img src='no'>")
  = Some "https://example.com/a.png".
Proof. vm_compute. reflexivity. Qed.

Example img_src_missing : Browser.firstImgSrc "<p>no picture</p>" = None.
Proof. vm_compute. reflexivity. Qed.

(** ** Facts about the string primitives *)

Section StringFacts.
Import Js.

Lemma append_cons c s t : String c s +:+ t = String c (s +:+ t).
Proof. reflexivity. Qed.

Lemma append_nil_l s : "" +:+ s = s.
Proof. reflexivity. Qed.

Lemma append_nil_r s : s +:+ "" = s.
Proof. induction s as [|c s IH]; [done | by rewrite append_cons, IH]. Qed.

Lemma append_assoc s1 s2 s3 : (s1 +:+ s2) +:+ s3 = s1 +:+ s2 +:+ s3.
Proof. induction s1 as [|c s1 IH]; [done | by rewrite !append_cons, IH]. Qed.

Lemma length_append s1 s2 :
  String.length (s1 +:+ s2) = (String.length s1 + String.length s2)%nat.
Proof.
  induction s1 as [|c s1 IH]; [done|]. rewrite append_cons. simpl. by rewrite IH.
Qed.

Lemma startsWith_spec s p : startsWith s p = true <-> exists r, s = p +:+ r.
Proof.
  revert s. induction p as [|a p IH]; intros s; simpl.
  - split; [intros _; exists s; reflexivity | reflexivity].
  - destruct s as [|b s].
    + split; [done | intros [r Hr]; discriminate].
    + rewrite andb_true_iff, IH, Ascii.eqb_eq. split.
      * intros [-> [r ->]]. by exists r.
      * intros [r Hr]. rewrite append_cons in Hr. injection Hr as -> ->. eauto.
Qed.

Lemma takeS_dropS n s : takeS n s +:+ dropS n s = s.
Proof.
  revert s. induction n as [|n IH]; intros [|c s]; simpl; try done.
  by rewrite append_cons, IH.
Qed.

Lemma dropS_append p r : dropS (String.length p) (p +:+ r) = r.
Proof.
  induction p as [|c p IH]; [by destruct r|]. by rewrite append_cons.
Qed.

Lemma length_dropS n s : String.length (dropS n s) = (String.length s - n)%nat.
Proof.
  revert s. induction n as [|n IH]; intros [|c s]; simpl; try done.
Qed.

(** [indexOf] finds an occurrence: the text is what precedes it, the
    pattern, and what follows. *)
Lemma indexOf_Some s p i :
  indexOf s p = Some i ->
  s = takeS i s +:+ p +:+ dropS (i + String.length p) s
  /\ (i + String.length p <= String.length s)%nat.
Proof.
  revert i. induction s as [|c s IH]; intros i; simpl.
  - destruct (startsWith "" p) eqn:Hp; [|done].
    intros [= <-]. apply startsWith_spec in Hp as [r Hr].
    destruct p; [done | discriminate].
  - destruct (startsWith (String c s) p) eqn:Hp.
    + intros [= <-]. apply startsWith_spec in Hp as [r Hr].
      change (0 + String.length p)%nat with (String.length p).
      change (S (String.length s)) with (String.length (String c s)).
      rewrite Hr, dropS_append, length_append. split; [reflexivity | lia].
    + destruct (indexOf s p) as [j|] eqn:Hj; [|done].
      intros [= <-]. destruct (IH j eq_refl) as [Heq Hle].
      simpl. split; [by rewrite append_cons, <- Heq | lia].
Qed.

Lemma indexOf_includes s p : is_Some (indexOf s p) <-> includes s p = true.
Proof.
  induction s as [|c s IH]; simpl.
  - destruct (startsWith "" p); simpl; [by split; eauto|].
    split; [intros [? ?]; done | done].
  - destruct (startsWith (String c s) p); simpl; [by split; eauto|].
    rewrite <- IH. destruct (indexOf s p); simpl; split; eauto;
      intros [? ?]; done.
Qed.

Lemma indexOf_None s p : indexOf s p = None <-> includes s p = false.
Proof.
  rewrite <- not_true_iff_false, <- indexOf_includes.
  rewrite <- eq_None_not_Some. done.
Qed.

Lemma split_go_cons fuel s p : exists x l, split_go fuel s p = x :: l.
Proof.
  destruct fuel; simpl; destruct (indexOf s p); eauto.
Qed.

Lemma join_cons x l sep :
  l <> [] -> join (x :: l) sep = x +:+ sep +:+ join l sep.
Proof. by destruct l. Qed.

Lemma join_snoc l x sep :
  l <> [] -> join (l ++ [x]) sep = join l sep +:+ sep +:+ x.
Proof.
  induction l as [|y l IH]; [done|]. intros _.
  destruct l as [|z l]; [reflexivity|].
  change (join ((y :: z :: l) ++ [x]) sep)
    with (y +:+ sep +:+ join ((z :: l) ++ [x]) sep).
  rewrite IH by discriminate.
  change (join (y :: z :: l) sep) with (y +:+ sep +:+ join (z :: l) sep).
  by rewrite !append_assoc.
Qed.

Section Split.
Context (sep : string) (Hsep : sep <> "").

Lemma sep_length : (1 <= String.length sep)%nat.
Proof using Hsep. destruct sep; [done | simpl; lia]. Qed.

(** Joining the pieces gives the text back. *)
Lemma join_split_go fuel s :
  (String.length s <= fuel)%nat -> join (split_go fuel s sep) sep = s.
Proof using Hsep.
  revert s. induction fuel as [|fuel IH]; intros s Hlen; simpl.
  - by destruct (indexOf s sep).
  - destruct (indexOf s sep) as [i|] eqn:Hi; [|done].
    destruct (indexOf_Some _ _ _ Hi) as [Heq Hle].
    destruct (split_go_cons fuel (dropS (i + String.length sep) s) sep)
      as (x & l & Hx).
    rewrite join_cons by (rewrite Hx; done).
    rewrite IH; [by rewrite <- Heq|].
    rewrite length_dropS. pose proof sep_length. lia.
Qed.

(** The last piece holds no separator. *)
Lemma last_split_go fuel s :
  (String.length s <= fuel)%nat ->
  exists l, last (split_go fuel s sep) = Some l /\ includes l sep = false.
Proof using Hsep.
  revert s. induction fuel as [|fuel IH]; intros s Hlen; simpl.
  - destruct (indexOf s sep) as [i|] eqn:Hi.
    + destruct (indexOf_Some _ _ _ Hi) as [_ Hle].
      pose proof sep_length. lia.
    + exists s. split; [done | by apply indexOf_None].
  - destruct (indexOf s sep) as [i|] eqn:Hi.
    + destruct (indexOf_Some _ _ _ Hi) as [_ Hle].
      destruct (IH (dropS (i + String.length sep) s)) as (l & Hl & Hno).
      { rewrite length_dropS. pose proof sep_length. lia. }
      exists l. split; [|done].
      destruct (split_go_cons fuel (dropS (i + String.length sep) s) sep)
        as (x & r & Hx).
      rewrite Hx in *. done.
    + exists s. split; [done | by apply indexOf_None].
Qed.

(** A text that holds the separator splits in two pieces at least. *)
Lemma split_includes s :
  includes s sep = true ->
  exists init l, split s sep = init ++ [l] /\ init <> []
    /\ includes l sep = false
    /\ s = join init sep +:+ sep +:+ l.
Proof using Hsep.
  intros Hinc. unfold split.
  destruct (last_split_go (String.length s) s) as (l & Hlast & Hno); [done|].
  apply last_Some in Hlast as [init Hinit].
  exists init, l. split; [done|].
  assert (init <> []) as Hne.
  { intros ->. simpl in Hinit.
    apply indexOf_includes in Hinc as [i Hi].
    destruct (String.length s) eqn:Hlen; simpl in Hinit; rewrite Hi in Hinit.
    - destruct (indexOf_Some _ _ _ Hi) as [_ Hle].
      pose proof sep_length. lia.
    - destruct (split_go_cons n (dropS (i + String.length sep) s) sep)
        as (x & r & Hx). rewrite Hx in Hinit. done. }
  split; [done|]. split; [done|].
  rewrite <- join_snoc by done. rewrite <- Hinit.
  symmetry. by apply join_split_go.
Qed.

Lemma split_not_includes s : includes s sep = false -> split s sep = [s].
Proof.
  intros Hno. apply indexOf_None in Hno. unfold split.
  destruct (String.length s); simpl; by rewrite Hno.
Qed.
End Split.

Lemma pop_snoc {A} (init : list A) (l : A) : pop (init ++ [l]) = (Some l, init).
Proof. unfold pop. by rewrite last_snoc, removelast_last. Qed.

(** *** Reversal *)

Lemma rev_app_rev_app s acc acc' :
  String.rev_app (String.rev_app s acc) acc' = String.rev_app acc (s +:+ acc').
Proof.
  revert acc. induction s as [|c s IH]; intros acc; [done|].
  simpl. by rewrite IH.
Qed.

Lemma rev_involutive s : String.rev (String.rev s) = s.
Proof.
  unfold String.rev. rewrite rev_app_rev_app. simpl. apply append_nil_r.
Qed.

Lemma rev_app_append s acc : String.rev_app s acc = String.rev s +:+ acc.
Proof.
  unfold String.rev. revert acc. induction s as [|c s IH]; intros acc; [done|].
  simpl. rewrite (IH (String c "")), IH, append_assoc. done.
Qed.

Lemma rev_app_app s1 s2 acc :
  String.rev_app (s1 +:+ s2) acc = String.rev_app s2 (String.rev_app s1 acc).
Proof.
  revert acc. induction s1 as [|c s1 IH]; intros acc; [done|].
  rewrite append_cons. simpl. apply IH.
Qed.

Lemma rev_append s1 s2 : String.rev (s1 +:+ s2) = String.rev s2 +:+ String.rev s1.
Proof.
  unfold String.rev at 1. rewrite rev_app_app, rev_app_append. done.
Qed.

Lemma length_rev_app s acc :
  String.length (String.rev_app s acc) = (String.length s + String.length acc)%nat.
Proof.
  revert acc. induction s as [|c s IH]; intros acc; [done|].
  simpl. rewrite IH. simpl. lia.
Qed.

Lemma length_rev s : String.length (String.rev s) = String.length s.
Proof. unfold String.rev. rewrite length_rev_app. simpl. lia. Qed.

(** *** [trim] *)

Lemma ws_head_le s : (ws_head s <= String.length s)%nat.
Proof.
  destruct s as [|a [|b [|c s]]]; simpl; repeat case_match; lia.
Qed.

Lemma ws_last_le s : (ws_last s <= String.length s)%nat.
Proof.
  destruct s as [|a [|b [|c s]]]; simpl; repeat case_match; lia.
Qed.

(** With enough fuel what is left starts with no white space. *)
Lemma strip_head_zero (head : string -> nat) fuel s :
  (forall r, head r <= String.length r)%nat ->
  (String.length s <= fuel)%nat ->
  head (strip head fuel s) = 0%nat.
Proof.
  intros Hle. revert s. induction fuel as [|fuel IH]; intros s Hlen; cbn [strip].
  - pose proof (Hle s). lia.
  - destruct (head s) as [|n] eqn:Hn; [done|].
    apply IH. rewrite length_dropS. lia.
Qed.

Lemma blank_app s1 s2 : blank s1 -> blank s2 -> blank (s1 +:+ s2).
Proof.
  induction 1 as [|ws rest Hpos Hws _ IH]; intros H2; [done|].
  rewrite append_assoc. constructor; auto.
Qed.

Lemma blank_one ws :
  (0 < ws_head ws)%nat -> ws_head ws = String.length ws -> blank ws.
Proof.
  intros Hpos Hws. rewrite <- (append_nil_r ws). by repeat constructor.
Qed.

Ltac ws_cases :=
  repeat match goal with
         | |- context [if ?b then _ else _] =>
             let E := fresh "E" in
             destruct b eqn:E; simpl;
             repeat match goal with
                    | H : ?x = _ |- context [?x] => rewrite H
                    end
         end.

(** The bytes that [ws_head] counts are one white-space character. *)
Lemma ws_head_chunk s :
  (0 < ws_head s)%nat ->
  ws_head (takeS (ws_head s) s) = ws_head s
  /\ String.length (takeS (ws_head s) s) = ws_head s.
Proof.
  destruct s as [|a [|b [|c s]]]; simpl; ws_cases; intros; split; done || lia.
Qed.

(** The lead byte of a longer white-space character is no white space. *)
Lemma ws2_not_ws1 a b : is_ws2 a b = true -> is_ws1 a = false.
Proof.
  unfold is_ws2, is_ws1. generalize (byte a) (byte b). intros x y.
  rewrite andb_true_iff, !N.eqb_eq. intros [-> _]. reflexivity.
Qed.

Lemma ws3_not_shorter a b c :
  is_ws3 a b c = true -> is_ws1 a = false /\ is_ws2 a b = false.
Proof.
  unfold is_ws3, is_ws2, is_ws1. generalize (byte a) (byte b) (byte c).
  intros x y z H.
  assert ((x =? 225) || (x =? 226) || (x =? 227) || (x =? 239) = true)%N as Hx.
  { destruct (x =? 225)%N, (x =? 226)%N, (x =? 227)%N, (x =? 239)%N;
      simpl in *; done. }
  rewrite !orb_true_iff, !N.eqb_eq in Hx.
  destruct Hx as [[[->| ->]| ->]| ->]; split; reflexivity.
Qed.

Lemma ws_last_chunk s :
  (0 < ws_last s)%nat ->
  ws_head (String.rev (takeS (ws_last s) s)) = ws_last s
  /\ String.length (takeS (ws_last s) s) = ws_last s.
Proof.
  destruct s as [|a [|b [|c s]]]; simpl.
  - lia.
  - ws_cases; intros; split; done || lia.
  - pose proof (ws2_not_ws1 b a).
    ws_cases; intros; split; try (done || lia); exfalso; intuition congruence.
  - pose proof (ws2_not_ws1 b a). pose proof (ws3_not_shorter c b a).
    ws_cases; intros; split; try (done || lia); exfalso; intuition congruence.
Qed.

(** A text that starts with no white space has no prefix that does. *)
Lemma ws_head_prefix p r : ws_head (p +:+ r) = 0%nat -> ws_head p = 0%nat.
Proof.
  destruct p as [|a [|b [|c p]]], r as [|d [|e r]];
    rewrite ?append_cons, ?append_nil_l, ?append_nil_r; simpl; ws_cases; done.
Qed.

Lemma strip_ws_head fuel s :
  exists pre, blank pre /\ s = pre +:+ strip ws_head fuel s.
Proof.
  revert s. induction fuel as [|fuel IH]; intros s; cbn [strip].
  - exists "". split; [constructor | done].
  - destruct (ws_head s) as [|n] eqn:Hn.
    + exists "". split; [constructor | done].
    + destruct (IH (dropS (S n) s)) as (pre & Hpre & Heq).
      destruct (ws_head_chunk s) as [Hw Hl]; [lia|]. rewrite Hn in Hw, Hl.
      exists (takeS (S n) s +:+ pre). split.
      * apply blank_app; [|done]. apply blank_one; lia.
      * rewrite append_assoc, <- Heq. symmetry. apply takeS_dropS.
Qed.

Lemma strip_ws_last fuel r :
  exists pre, blank (String.rev pre) /\ r = pre +:+ strip ws_last fuel r.
Proof.
  revert r. induction fuel as [|fuel IH]; intros r; cbn [strip].
  - exists "". split; [constructor | done].
  - destruct (ws_last r) as [|n] eqn:Hn.
    + exists "". split; [constructor | done].
    + destruct (IH (dropS (S n) r)) as (pre & Hpre & Heq).
      destruct (ws_last_chunk r) as [Hw Hl]; [lia|]. rewrite Hn in Hw, Hl.
      exists (takeS (S n) r +:+ pre). split.
      * rewrite rev_append. apply blank_app; [done|].
        apply blank_one; rewrite ?length_rev; lia.
      * rewrite append_assoc, <- Heq. symmetry. apply takeS_dropS.
Qed.

(** [trim] takes white space, and nothing else, from both ends, and leaves
    none at either end. *)
Lemma trim_spec s :
  exists pre post,
    s = pre +:+ trim s +:+ post /\ blank pre /\ blank post
    /\ ws_head (trim s) = 0%nat /\ ws_last (String.rev (trim s)) = 0%nat.
Proof.
  unfold trim, trimEnd. set (u := trimStart s).
  destruct (strip_ws_head (String.length s) s) as (pre & Hpre & Hs).
  fold (trimStart s) in Hs. fold u in Hs.
  destruct (strip_ws_last (String.length u) (String.rev u)) as (post' & Hpost & Hu).
  set (v := strip ws_last (String.length u) (String.rev u)) in *.
  assert (u = String.rev v +:+ String.rev post') as Hu'.
  { rewrite <- (rev_involutive u), Hu, rev_append. done. }
  exists pre, (String.rev post'). split; [by rewrite <- Hu'|].
  split; [done|]. split; [done|]. split.
  - apply (ws_head_prefix _ (String.rev post')). rewrite <- Hu'.
    apply strip_head_zero; [apply ws_head_le | done].
  - rewrite rev_involutive.
    apply strip_head_zero; [apply ws_last_le | by rewrite length_rev].
Qed.

(** *** The last occurrence *)

Lemma lastIndexOf_None s p : lastIndexOf s p = None <-> includes s p = false.
Proof.
  induction s as [|c s IH]; simpl.
  - destruct (startsWith "" p); simpl; split; done.
  - destruct (lastIndexOf s p) as [i|].
    + split; [done|]. intros H. apply orb_false_elim in H as [_ H].
      apply IH in H. done.
    + rewrite (proj1 IH eq_refl), orb_false_r.
      destruct (startsWith (String c s) p); split; done.
Qed.

(** An occurrence with none starting after it is the last one. *)
Lemma lastIndexOf_append t c u p :
  startsWith (String c u) p = true -> includes u p = false ->
  lastIndexOf (t +:+ String c u) p = Some (String.length t).
Proof.
  intros Hstart Hno. induction t as [|d t IH].
  - rewrite append_nil_l. cbn [lastIndexOf].
    rewrite (proj2 (lastIndexOf_None u p) Hno), Hstart. done.
  - rewrite append_cons. cbn [lastIndexOf]. by rewrite IH.
Qed.

Lemma takeS_append t r : takeS (String.length t) (t +:+ r) = t.
Proof.
  induction t as [|c t IH]; [by destruct r|].
  rewrite append_cons. simpl. by rewrite IH.
Qed.

(** Cutting at the last occurrence gives the pieces of [split] unless the
    last piece starts with a hyphen and a blank, the rest of a second
    separator that shares its blank with the one matched. *)
Lemma titleAtLast_agrees title last :
  includes last " - " = false ->
  startsWith last "- " = false ->
  Spec.titleAtLast (title +:+ " - " +:+ last) = Some (title, last).
Proof.
  intros Hno Hstart. unfold Spec.titleAtLast. change SEPARATOR with " - ".
  change (" - " +:+ last) with (String " " ("- " +:+ last)).
  rewrite (lastIndexOf_append title " " ("- " +:+ last) " - ").
  - rewrite takeS_append.
    change (String " " ("- " +:+ last)) with (" - " +:+ last).
    rewrite <- append_assoc.
    replace (String.length title + String.length " - ")%nat
      with (String.length (title +:+ " - ")) by apply length_append.
    by rewrite dropS_append.
  - reflexivity.
  - change ("- " +:+ last) with (String "-" (String " " last)).
    cbn [includes]. rewrite Hno, orb_false_r.
    change (startsWith (String " " last) " - ") with (startsWith last "- ").
    rewrite Hstart. reflexivity.
Qed.

End StringFacts.

(** ** Title and source *)

Section TitleAndSource.
Context (dateParse : string -> option Z)
        (toISOString toLocaleDateString : Z -> string)
        (firstImgSrc : string -> option string).

Lemma SEPARATOR_nonempty : SEPARATOR <> "".
Proof. discriminate. Qed.

Lemma mapItem_Some tabId feed_title index item a :
  mapItem dateParse toISOString toLocaleDateString firstImgSrc
    tabId feed_title index item = Some a ->
  exists title source,
    titleAndSource feed_title item = Some (title, source)
    /\ Article.title a = title /\ Article.source a = Js.trim source.
Proof.
  unfold mapItem. intros H.
  destruct (titleAndSource feed_title item) as [[title source]|]; [|done].
  destruct (dateParse (Item.pubDate item)); [|done].
  injection H as <-. by exists title, source.
Qed.

(** C5, as amended.  For every normalized item: when the upstream title
    holds the separator " - ", it is split from left to right at
    occurrences that do not overlap; the source is the last piece,
    trimmed, so it follows a separator and holds none, and the title is
    the earlier pieces rejoined with the separator.  This is the cut at
    the last occurrence of the separator unless the last piece starts
    with "- ".  When the title holds no separator it is kept, and the
    source is the trimmed author, else the trimmed feed title, else
    "Unknown Source".  In both cases the source has no white space at
    either end. *)
Theorem title_source_derivation tabId feed_title index item a :
  mapItem dateParse toISOString toLocaleDateString firstImgSrc
    tabId feed_title index item = Some a ->
  (Js.includes (Item.title item) " - " = true ->
     exists earlier last,
       Js.split (Item.title item) " - " = earlier ++ [last]
       /\ Article.title a = Js.join earlier " - "
       /\ Article.source a = Js.trim last
       /\ Item.title item = Article.title a +:+ " - " +:+ last
       /\ Js.includes last " - " = false
       /\ (Js.startsWith last "- " = false ->
           Spec.titleAtLast (Item.title item) = Some (Article.title a, last)))
  /\ (Js.includes (Item.title item) " - " = false ->
        Article.title a = Item.title item
        /\ (Js.truthy (Item.author item) = true ->
              Article.source a = Js.trim (default "" (Item.author item)))
        /\ (Js.truthy (Item.author item) = false ->
            Js.truthy feed_title = true ->
              Article.source a = Js.trim (default "" feed_title))
        /\ (Js.truthy (Item.author item) = false ->
            Js.truthy feed_title = false ->
              Article.source a = "Unknown Source"))
  /\ (Js.ws_head (Article.source a) = 0%nat
      /\ Js.ws_last (String.rev (Article.source a)) = 0%nat).
Proof.
  intros Hmap.
  destruct (mapItem_Some _ _ _ _ _ Hmap) as (title & source & Hts & Ht & Hs).
  unfold titleAndSource in Hts. change SEPARATOR with " - " in Hts.
  assert (Js.ws_head (Article.source a) = 0%nat
          /\ Js.ws_last (String.rev (Article.source a)) = 0%nat) as Hws.
  { rewrite Hs. destruct (trim_spec source) as (_ & _ & _ & _ & _ & H1 & H2).
    done. }
  split; [|split; [|exact Hws]]; intros Hinc; rewrite Hinc in Hts.
  - destruct (split_includes " - " SEPARATOR_nonempty _ Hinc)
      as (earlier & last & Hsplit & Hne & Hno & Heq).
    rewrite Hsplit, pop_snoc in Hts. injection Hts as <- <-.
    exists earlier, last. rewrite Ht, Hs. repeat split; try done.
    intros Hstart. rewrite Heq. by apply titleAtLast_agrees.
  - injection Hts as <- <-. rewrite Ht, Hs. split; [done|].
    destruct (Item.author item) as [[|c s]|], feed_title as [[|c' s']|];
      simpl; repeat split; intros; try done.
Qed.
End TitleAndSource.

(** C5 on the headline of the specification. *)
Lemma title_source_derivation_witness :
  let a := Article.mk "tab-1-0-2024-01-15T08:30:00.000Z" "tab-1" "Local bus cuts"
             "2024/1/15" "2024-01-15T08:30:00.000Z" NO_SUMMARY
             "https://picsum.photos/seed/Local%20bus%20cuts%20-%20Example%20Times/800/450"
             "Example Times" "https://example.com/article" in
  mapItem Browser.dateParse Browser.toISOString Browser.toLocaleDateString
    Browser.firstImgSrc "tab-1" (Some "Feed") 0 Sample.headline = Some a
  /\ Js.includes (Item.title Sample.headline) " - " = true
  /\ exists earlier last,
       Js.split (Item.title Sample.headline) " - " = earlier ++ [last]
       /\ Article.title a = Js.join earlier " - "
       /\ Article.source a = Js.trim last
       /\ Item.title Sample.headline = Article.title a +:+ " - " +:+ last
       /\ Js.includes last " - " = false
       /\ (Js.startsWith last "- " = false ->
           Spec.titleAtLast (Item.title Sample.headline) = Some (Article.title a, last)).
Proof.
  intros a.
  assert (mapItem Browser.dateParse Browser.toISOString Browser.toLocaleDateString
            Browser.firstImgSrc "tab-1" (Some "Feed") 0 Sample.headline = Some a) as Hmap
    by (vm_compute; reflexivity).
  split; [exact Hmap|]. split; [vm_compute; reflexivity|].
  exact (proj1 (title_source_derivation _ _ _ _ _ _ _ _ _ Hmap) eq_refl).
Defined.

Example headline_title_source :
  (fun a => (Article.title a, Article.source a)) <$>
    mapItem Browser.dateParse Browser.toISOString Browser.toLocaleDateString
      Browser.firstImgSrc "tab-1" (Some "Feed") 0 Sample.headline
  = Some ("Local bus cuts", "Example Times").
Proof. vm_compute. reflexivity. Qed.

Example signed_source :
  Article.source <$>
    mapItem Browser.dateParse Browser.toISOString Browser.toLocaleDateString
      Browser.firstImgSrc "tab-1" (Some "Feed") 0 Sample.signed
  = Some "Jane Doe".
Proof. vm_compute. reflexivity. Qed.

(** C5 as it is worded fails on a title whose last two occurrences of the
    separator overlap: the first one is matched, so the second is not a
    cutting point, and the source is not what follows the last occurrence. *)
Lemma title_source_last_occurrence_counterexample :
  (fun a => (Article.title a, Article.source a)) <$>
    mapItem Browser.dateParse Browser.toISOString Browser.toLocaleDateString
      Browser.firstImgSrc "tab-1" (Some "Feed") 0 Sample.overlapping
  = Some ("Tama line", "- Example Times")
  /\ Spec.titleAtLast (Item.title Sample.overlapping)
     = Some ("Tama line -", "Example Times")
  /\ Js.trim "Example Times" <> "- Example Times".
Proof. vm_compute. repeat split; discriminate. Qed.

(** ** The feed address *)

Section FeedAddress.
Import Js Uri.

Lemma unreserved_not_percent c : uri_unreserved c = true -> Ascii.eqb c "%" = false.
Proof. destruct c as [[] [] [] [] [] [] [] []]; vm_compute; congruence. Qed.

(** the two hexadecimal digits written for a byte read back as the byte *)
Lemma hex_pair c :
  match hexValue (hex_digit (byte c / 16)), hexValue (hex_digit (byte c mod 16)) with
  | Some x, Some y => ascii_of_N (16 * x + y) = c
  | _, _ => False
  end.
Proof. destruct c as [[] [] [] [] [] [] [] []]; vm_compute; reflexivity. Qed.

Lemma percentDecode_append_piece c s :
  percentDecode ((if uri_unreserved c then String c "" else percent c) +:+ s)
  = String c <$> percentDecode s.
Proof.
  destruct (uri_unreserved c) eqn:Hc.
  - change (String c "" +:+ s) with (String c s).
    cbn [percentDecode]. rewrite (unreserved_not_percent c Hc).
    by destruct (percentDecode s).
  - unfold percent. rewrite !append_cons, append_nil_l.
    cbn [percentDecode]. change (Ascii.eqb "%" "%") with true. cbv iota.
    pose proof (hex_pair c) as H.
    destruct (hexValue (hex_digit (byte c / 16))) as [x|]; [|done].
    destruct (hexValue (hex_digit (byte c mod 16))) as [y|]; [|done].
    rewrite H. by destruct (percentDecode s).
Qed.

(** Decoding the encoded text gives the text back. *)
Lemma percentDecode_encode s : percentDecode (encodeURIComponent s) = Some s.
Proof.
  induction s as [|c s IH]; [done|].
  cbn [encodeURIComponent]. by rewrite percentDecode_append_piece, IH.
Qed.

Lemma every_append P s1 s2 : every P (s1 +:+ s2) = every P s1 && every P s2.
Proof.
  induction s1 as [|c s1 IH]; [done|].
  rewrite append_cons. simpl. by rewrite IH, andb_assoc.
Qed.

Lemma encoded_piece c :
  every encoded_byte (if uri_unreserved c then String c "" else percent c) = true.
Proof. destruct c as [[] [] [] [] [] [] [] []]; vm_compute; reflexivity. Qed.

(** The encoded text is made of unreserved bytes and [%] only. *)
Lemma encode_bytes s : every encoded_byte (encodeURIComponent s) = true.
Proof.
  induction s as [|c s IH]; [done|].
  cbn [encodeURIComponent]. rewrite every_append, IH, andb_true_r.
  apply encoded_piece.
Qed.

(** C8, as amended.  The test is on the text as typed: a keyword that
    begins, at its first character, with exactly http:// or https:// in
    small letters is the feed address as it stands, whatever follows.
    Any other keyword gives the search address
    https://news.google.com/rss/search?q=<encoded keyword>&hl=ja&gl=JP&ceid=JP:ja,
    in which the encoded keyword is made of unreserved bytes and percent
    escapes only and decodes to the keyword.  Every keyword is of one kind
    or the other. *)
Theorem getRssUrl_resolution keyword :
  ((exists rest, keyword = "http://" +:+ rest \/ keyword = "https://" +:+ rest) ->
     getRssUrl keyword = keyword)
  /\ ((forall rest, keyword <> "http://" +:+ rest /\ keyword <> "https://" +:+ rest) ->
        getRssUrl keyword
        = "https://news.google.com/rss/search?q=" +:+ encodeURIComponent keyword
            +:+ "&hl=ja&gl=JP&ceid=JP:ja"
        /\ every encoded_byte (encodeURIComponent keyword) = true
        /\ percentDecode (encodeURIComponent keyword) = Some keyword)
  /\ ((exists rest, keyword = "http://" +:+ rest \/ keyword = "https://" +:+ rest)
      \/ (forall rest, keyword <> "http://" +:+ rest /\ keyword <> "https://" +:+ rest)).
Proof.
  assert ((exists rest, keyword = "http://" +:+ rest \/ keyword = "https://" +:+ rest)
          <-> startsWith keyword "http://" || startsWith keyword "https://" = true)
    as Hshape.
  { rewrite orb_true_iff, !startsWith_spec. split.
    - intros [rest [H|H]]; [left | right]; by exists rest.
    - intros [[rest H]|[rest H]]; exists rest; [by left | by right]. }
  assert ((exists rest, keyword = "http://" +:+ rest \/ keyword = "https://" +:+ rest) ->
          getRssUrl keyword = keyword) as Hverbatim.
  { intros H. apply Hshape in H. unfold getRssUrl. by rewrite H. }
  split; [exact Hverbatim|]. split.
  - intros Hnot.
    assert (startsWith keyword "http://" || startsWith keyword "https://" = false) as H.
    { apply not_true_is_false. intros H. apply Hshape in H as [rest [H|H]];
        by destruct (Hnot rest). }
    unfold getRssUrl. rewrite H. split; [done|].
    split; [apply encode_bytes | apply percentDecode_encode].
  - destruct (startsWith keyword "http://" || startsWith keyword "https://") eqn:H.
    + left. by apply Hshape.
    + right. intros rest. split; intros Heq;
        (assert (false = true) as H' by (apply Hshape; exists rest; auto));
        discriminate H'.
Qed.
End FeedAddress.

(** C8 on two of the default tabs: a feed address and a search keyword. *)
Lemma getRssUrl_resolution_witness :
  (exists rest, "https://www.gizmodo.jp/index.xml" = "https://" +:+ rest)
  /\ getRssUrl "https://www.gizmodo.jp/index.xml" = "https://www.gizmodo.jp/index.xml"
  /\ (forall rest, "バス 減便" <> "http://" +:+ rest /\ "バス 減便" <> "https://" +:+ rest)
  /\ getRssUrl "バス 減便"
     = "https://news.google.com/rss/search?q=" +:+ Js.encodeURIComponent "バス 減便"
         +:+ "&hl=ja&gl=JP&ceid=JP:ja"
  /\ Spec.absoluteHttpUrl "https://www.gizmodo.jp/index.xml" = true.
Proof.
  assert (forall rest, "バス 減便" <> "http://" +:+ rest /\ "バス 減便" <> "https://" +:+ rest)
    as Hsearch by (intros rest; split; discriminate).
  split; [by exists "www.gizmodo.jp/index.xml"|].
  split.
  { exact (proj1 (getRssUrl_resolution "https://www.gizmodo.jp/index.xml")
             (ex_intro _ "www.gizmodo.jp/index.xml" (or_intror eq_refl))). }
  split; [exact Hsearch|].
  split; [|reflexivity].
  exact (proj1 (proj1 (proj2 (getRssUrl_resolution "バス 減便")) Hsearch)).
Defined.

(** The claim as it is worded fails both ways.  An absolute https URL with
    the scheme in capitals is not used as the feed address but sent to the
    search; and the bare prefix, which is no URL, is used as the feed
    address and not sent to the search. *)
Lemma getRssUrl_absolute_url_counterexample :
  Spec.absoluteHttpUrl "HTTPS://www.gizmodo.jp/index.xml" = true
  /\ getRssUrl "HTTPS://www.gizmodo.jp/index.xml" <> "HTTPS://www.gizmodo.jp/index.xml"
  /\ getRssUrl "HTTPS://www.gizmodo.jp/index.xml"
     = "https://news.google.com/rss/search?q=HTTPS%3A%2F%2Fwww.gizmodo.jp%2Findex.xml&hl=ja&gl=JP&ceid=JP:ja"
  /\ Spec.absoluteHttpUrl "http://" = false
  /\ getRssUrl "http://" = "http://"
  /\ getRssUrl "http://"
     <> "https://news.google.com/rss/search?q=" +:+ Js.encodeURIComponent "http://"
          +:+ "&hl=ja&gl=JP&ceid=JP:ja".
Proof. repeat split; try reflexivity; discriminate. Qed.

Example getRssUrl_search :
  getRssUrl "バス 減便"
  = "https://news.google.com/rss/search?q=%E3%83%90%E3%82%B9%20%E6%B8%9B%E4%BE%BF&hl=ja&gl=JP&ceid=JP:ja".
Proof. reflexivity. Qed.

(** ** The image of an article *)

Section Image.
Context (dateParse : string -> option Z)
        (toISOString toLocaleDateString : Z -> string)
        (firstImgSrc : string -> option string).

Lemma truthy_false_orElse o d : Js.truthy o = false -> Js.orElse o d = d.
Proof. by destruct o as [[|c s]|]. Qed.

Lemma truthy_true_orElse o d : Js.truthy o = true -> Some (Js.orElse o d) = o.
Proof. by destruct o as [[|c s]|]. Qed.




End Image.


(** An enclosure with a link goes before the pictures of the markup, one
    without a link does not count. *)
Example enclosure_before_markup :
  imageUrlOf Browser.firstImgSrc Sample.enclosed = "https://example.com/depot.jpg"
  /\ imageUrlOf Browser.firstImgSrc Sample.enclosedNoLink = "https://example.com/p.jpg".
Proof. split; vm_compute; reflexivity. Qed.

Example placeholder_for_plain_item :
  Article.imageUrl <$>
    mapItem Browser.dateParse Browser.toISOString Browser.toLocaleDateString
      Browser.firstImgSrc "tab-1" (Some "Feed") 0 Sample.signed
  = Some "https://picsum.photos/seed/Timetable%20change/800/450".
Proof. vm_compute. reflexivity. Qed.

(** ** The tab editor *)

Section TabEditor.
Import Modal.

Lemma handleMaxTabsChange_cases value m :
  (exists n, JsNumber.parseInt value = Some n /\ 1 <= n <= 20
             /\ handleMaxTabsChange value m = setEditingMaxTabs n m)
  \/ ((forall n, JsNumber.parseInt value = Some n -> n < 1 \/ 20 < n)
      /\ handleMaxTabsChange value m = m).
Proof.
  unfold handleMaxTabsChange.
  destruct (JsNumber.parseInt value) as [n|]; [|right; split; [done|done]].
  destruct (n >=? 1) eqn:H1; destruct (n <=? 20) eqn:H2; simpl;
    try (right; split; [intros ? [= <-]; lia | done]).
  left. exists n. repeat split; try done; lia.
Qed.

(** C7, as amended.  Adding a tab when the count is at or over the
    maximum of the editor changes nothing, and below the maximum it
    appends one tab; deleting when one tab or none is left changes
    nothing.  A new maximum is taken only when the typed value parses to
    an integer from 1 to 20; any other value leaves the maximum as it
    was, it is not clamped.  So a maximum within 1 to 20 stays there. *)
Theorem tab_count_bounds (m : Modal.t) :
  (forall now, Z.of_nat (length (editingTabs m)) >= editingMaxTabs m ->
     handleAddTab now m = m)
  /\ (forall now, Z.of_nat (length (editingTabs m)) < editingMaxTabs m ->
        length (editingTabs (handleAddTab now m)) = S (length (editingTabs m))
        /\ editingMaxTabs (handleAddTab now m) = editingMaxTabs m)
  /\ (forall index, (length (editingTabs m) <= 1)%nat ->
        handleDeleteTab index m = m)
  /\ (forall value n, JsNumber.parseInt value = Some n -> 1 <= n <= 20 ->
        editingMaxTabs (handleMaxTabsChange value m) = n
        /\ editingTabs (handleMaxTabsChange value m) = editingTabs m)
  /\ (forall value,
        (forall n, JsNumber.parseInt value = Some n -> n < 1 \/ 20 < n) ->
        handleMaxTabsChange value m = m)
  /\ (forall value, 1 <= editingMaxTabs m <= 20 ->
        1 <= editingMaxTabs (handleMaxTabsChange value m) <= 20).
Proof.
  repeat split.
  - unfold handleAddTab.
    destruct (Z.of_nat (length (editingTabs m)) >=? editingMaxTabs m) eqn:E;
      [done | lia].
  - unfold handleAddTab.
    destruct (Z.of_nat (length (editingTabs m)) >=? editingMaxTabs m) eqn:E;
      [lia|]. simpl. rewrite length_app. simpl. lia.
  - unfold handleAddTab.
    destruct (Z.of_nat (length (editingTabs m)) >=? editingMaxTabs m) eqn:E;
      [lia | done].
  - intros index Hlen. unfold handleDeleteTab.
    destruct (length (editingTabs m) <=? 1)%nat eqn:E; [done|].
    apply Nat.leb_gt in E. lia.
  - destruct (handleMaxTabsChange_cases value m) as [(n' & Hp & _ & ->)|[Hout _]].
    + by simplify_eq.
    + destruct (Hout n H); lia.
  - destruct (handleMaxTabsChange_cases value m) as [(n' & Hp & _ & ->)|[_ ->]];
      done.
  - intros value Hout.
    destruct (handleMaxTabsChange_cases value m) as [(n & Hp & Hr & _)|[_ ->]];
      [|done]. destruct (Hout n Hp); lia.
  - destruct (handleMaxTabsChange_cases value m) as [(n & _ & Hr & ->)|[_ ->]];
      simpl; lia.
  - destruct (handleMaxTabsChange_cases value m) as [(n & _ & Hr & ->)|[_ ->]];
      simpl; lia.
Qed.
End TabEditor.

(** C7 on the editor of the default tabs: full at five tabs, one tab left,
    the value 12 taken and the value 25 ignored. *)
Lemma tab_count_bounds_witness :
  (Z.of_nat (length (Modal.editingTabs Sample.fullEditor))
     >= Modal.editingMaxTabs Sample.fullEditor
   /\ Modal.handleAddTab 1705307400123 Sample.fullEditor = Sample.fullEditor)
  /\ ((length (Modal.editingTabs Sample.lastTabEditor) <= 1)%nat
      /\ Modal.handleDeleteTab 0 Sample.lastTabEditor = Sample.lastTabEditor)
  /\ (JsNumber.parseInt "12" = Some 12 /\ 1 <= 12 <= 20
      /\ Modal.editingMaxTabs (Modal.handleMaxTabsChange "12" Sample.editor) = 12)
  /\ ((forall n, JsNumber.parseInt "25" = Some n -> n < 1 \/ 20 < n)
      /\ Modal.handleMaxTabsChange "25" Sample.editor = Sample.editor).
Proof.
  assert (Z.of_nat (length (Modal.editingTabs Sample.fullEditor))
          >= Modal.editingMaxTabs Sample.fullEditor) as H1 by (vm_compute; discriminate).
  assert ((length (Modal.editingTabs Sample.lastTabEditor) <= 1)%nat) as H2
    by (vm_compute; lia).
  assert (forall n, JsNumber.parseInt "25" = Some n -> n < 1 \/ 20 < n) as H3
    by (intros n [= <-]; lia).
  split; [split; [exact H1|]|].
  { exact (proj1 (tab_count_bounds Sample.fullEditor) 1705307400123 H1). }
  split; [split; [exact H2|]|].
  { exact (proj1 (proj2 (proj2 (tab_count_bounds Sample.lastTabEditor))) 0%nat H2). }
  split; [split; [reflexivity|]; split; [lia|]|].
  { exact (proj1 (proj1 (proj2 (proj2 (proj2 (tab_count_bounds Sample.editor))))
                   "12" 12 eq_refl ltac:(lia))). }
  split; [exact H3|].
  exact (proj1 (proj2 (proj2 (proj2 (proj2 (tab_count_bounds Sample.editor))))) "25" H3).
Defined.

(** C7 as it is worded says the maximum is clamped: typing 25 would set it
    to 20.  The handler ignores 25 and the maximum stays 7. *)
Lemma max_tabs_clamp_counterexample :
  JsNumber.parseInt "25" = Some 25
  /\ Modal.editingMaxTabs (Modal.handleMaxTabsChange "25" Sample.editor) = 7
  /\ Spec.clampMaxTabs 25 = 20
  /\ Modal.editingMaxTabs (Modal.handleMaxTabsChange "25" Sample.editor)
     <> Spec.clampMaxTabs 25.
Proof. repeat split; try reflexivity. vm_compute. discriminate. Qed.

Example add_tab_below_max :
  Modal.editingTabs (Modal.handleAddTab 1705307400123 Sample.editor)
  = Sample.DEFAULT_TABS
      ++ [Tab.mk "tab-1705307400123" Modal.NEW_TAB_LABEL "fa-hashtag" Modal.NEW_TAB_KEYWORD].
Proof. vm_compute. reflexivity. Qed.

Example delete_second_tab :
  Tab.id <$> Modal.editingTabs (Modal.handleDeleteTab 1 Sample.editor)
  = ["tab-1"; "tab-3"; "tab-4"; "tab-5"].
Proof. reflexivity. Qed.

(** ** What [fetchNews] leaves alone *)

Section Frame.
Context (dateParse : string -> option Z)
        (toISOString toLocaleDateString : Z -> string)
        (firstImgSrc : string -> option string).

Lemma fetchNews_begin_frame tabId currentTabs now st :
  let st' := stateOf (fetchNews_begin tabId currentTabs now st) in
  newsCache st' = newsCache st /\ readIds st' = readIds st
  /\ hiddenSources st' = hiddenSources st /\ tabs st' = tabs st
  /\ activeTabId st' = activeTabId st /\ maxTabs st' = maxTabs st.
Proof.
  unfold fetchNews_begin. simpl.
  destruct (find _ currentTabs); [|done].
  destruct (newsCache st !! tabId) as [cached|]; [|done].
  by destruct (now - timestamp cached <? CACHE_DURATION).
Qed.

Lemma fetchNews_resume_frame tabId response now st :
  let st' := fetchNews_resume dateParse toISOString toLocaleDateString
               firstImgSrc tabId response now st in
  readIds st' = readIds st /\ hiddenSources st' = hiddenSources st
  /\ tabs st' = tabs st /\ activeTabId st' = activeTabId st
  /\ maxTabs st' = maxTabs st.
Proof.
  unfold fetchNews_resume. simpl.
  destruct (tryBlock _ _ _ _ tabId response); [done|].
  by destruct (newsCache st !! tabId).
Qed.
End Frame.

(** ** The read set and the hidden set *)

(** C9, as amended.  Every action of the user keeps all the read ids, and
    a fetch that settles keeps them too: the read set only grows and
    nothing clears it.  The hidden set keeps its elements under every
    action but two: [unhideSource] takes out the one source it names, and
    [resetHiddenSources] empties the set. *)
Theorem tracker_sets (action : UserAction) (now : Z) (st : App) :
  let st' := stateOf (act action now st) in
  readIds st ⊆ readIds st'
  /\ match action with
     | UnhideSource source => hiddenSources st' = hiddenSources st ∖ {[source]}
     | ResetHiddenSources => hiddenSources st' = ∅
     | HideSource source => hiddenSources st' = hiddenSources st ∪ {[source]}
     | _ => hiddenSources st' = hiddenSources st
     end
  /\ (forall dateParse toISOString toLocaleDateString firstImgSrc tabId response later,
        let settled :=
          fetchNews_resume dateParse toISOString toLocaleDateString firstImgSrc
            tabId response later st in
        readIds settled = readIds st /\ hiddenSources settled = hiddenSources st).
Proof.
  split; [|split].
  - destruct action; simpl; try done.
    + destruct (String.eqb tabId (activeTabId st)); [done|].
      destruct (fetchNews_begin_frame tabId (tabs st) now (setActiveTabId tabId st))
        as (_ & -> & _). done.
    + case_bool_decide; simpl; set_solver.
    + unfold handleSaveSettings.
      match goal with
      | |- context [fetchNews_begin ?t ?c ?n ?s] =>
          destruct (fetchNews_begin_frame t c n s) as (_ & Hr & _);
          destruct (fetchNews_begin t c n s); simpl in *; by rewrite Hr
      end.
    + unfold forceRefresh.
      match goal with
      | |- context [fetchNews_begin ?t ?c ?n ?s] =>
          destruct (fetchNews_begin_frame t c n s) as (_ & Hr & _); by rewrite Hr
      end.
  - destruct action; simpl; try done.
    + destruct (String.eqb tabId (activeTabId st)); [done|].
      destruct (fetchNews_begin_frame tabId (tabs st) now (setActiveTabId tabId st))
        as (_ & _ & -> & _). done.
    + by case_bool_decide.
    + unfold handleSaveSettings.
      match goal with
      | |- context [fetchNews_begin ?t ?c ?n ?s] =>
          destruct (fetchNews_begin_frame t c n s) as (_ & _ & Hr & _);
          destruct (fetchNews_begin t c n s); simpl in *; by rewrite Hr
      end.
    + unfold forceRefresh.
      match goal with
      | |- context [fetchNews_begin ?t ?c ?n ?s] =>
          destruct (fetchNews_begin_frame t c n s) as (_ & _ & Hr & _); by rewrite Hr
      end.
  - intros. subst settled.
    destruct (fetchNews_resume_frame dateParse toISOString toLocaleDateString
                firstImgSrc tabId response later st) as (-> & -> & _). done.
Qed.

(** C9 as it is worded fails on the un-hide button of a card: one source
    leaves the hidden set and the other stays. *)
Lemma unhide_removes_one_counterexample :
  hiddenSources Sample.app = {[ "Example Times"; "Daily Tama" ]}
  /\ hiddenSources (stateOf (act (UnhideSource "Example Times") Sample.NOON Sample.app))
     = {[ "Daily Tama" ]}
  /\ ~ hiddenSources Sample.app
       ⊆ hiddenSources (stateOf (act (UnhideSource "Example Times") Sample.NOON Sample.app)).
Proof.
  split; [reflexivity|]. split; [vm_compute; reflexivity|].
  intros Hsub.
  assert ("Example Times" ∈ hiddenSources Sample.app) as Hin
    by (apply (bool_decide_unpack _); vm_compute; exact I).
  apply Hsub in Hin. apply (bool_decide_pack _) in Hin.
  vm_compute in Hin. exact Hin.
Qed.

(** ** The cache *)

Section Cache.
Context (dateParse : string -> option Z)
        (toISOString toLocaleDateString : Z -> string)
        (firstImgSrc : string -> option string).

Lemma find_configured tabId (currentTabs : list Tab.t) :
  (exists tab, tab ∈ currentTabs /\ Tab.id tab = tabId) ->
  exists activeTab,
    find (fun t => String.eqb (Tab.id t) tabId) currentTabs = Some activeTab
    /\ Tab.id activeTab = tabId.
Proof.
  intros (tab & Hin & Hid).
  destruct (find (fun t => String.eqb (Tab.id t) tabId) currentTabs)
    as [activeTab|] eqn:Hfind.
  - exists activeTab. split; [done|].
    apply find_some in Hfind as [_ Heq]. by apply String.eqb_eq.
  - apply list_elem_of_In in Hin.
    pose proof (find_none _ _ Hfind tab Hin) as Hno. simpl in Hno.
    rewrite Hid, String.eqb_refl in Hno. done.
Qed.

(** A fresh entry of a configured tab ends [fetchNews] before any
    request. *)
Lemma fetchNews_begin_hit tabId currentTabs now st cached :
  (exists tab, tab ∈ currentTabs /\ Tab.id tab = tabId) ->
  newsCache st !! tabId = Some cached ->
  now - timestamp cached < CACHE_DURATION ->
  fetchNews_begin tabId currentTabs now st
  = Returned (setLoading false
                (setNewsList (data cached) (setError None (setLoading true st)))).
Proof.
  intros Htab Hcached Hfresh. unfold fetchNews_begin.
  destruct (find_configured _ _ Htab) as (activeTab & -> & _).
  simpl. rewrite Hcached.
  destruct (now - timestamp cached <? CACHE_DURATION) eqn:E; [done | lia].
Qed.

(** An id that no current tab has ends [fetchNews] at its first test:
    no request, and the list and the cache stay as they were. *)
Lemma fetchNews_unknown_tab network tabId currentTabs now later st :
  (forall tab, tab ∈ currentTabs -> Tab.id tab <> tabId) ->
  fetchNews dateParse toISOString toLocaleDateString firstImgSrc
    network tabId currentTabs now later st
  = (setLoading false (setError None (setLoading true st)), []).
Proof.
  intros Hnone. unfold fetchNews, fetchNews_begin.
  destruct (find (fun t => String.eqb (Tab.id t) tabId) currentTabs)
    as [tab|] eqn:Hfind; [|done].
  apply find_some in Hfind as [Hin Heq]. apply String.eqb_eq in Heq.
  apply list_elem_of_In in Hin. by destruct (Hnone tab Hin).
Qed.

(** The four ways the [try] block of [fetchNews] ends in its [catch]. *)
Lemma tryBlock_None tabId response :
  tryBlock dateParse toISOString toLocaleDateString firstImgSrc tabId response = None
  <-> response = NetworkFailure \/ response = HttpError \/ response = InvalidBody
      \/ exists d, response = Body d
           /\ (Api.status d <> "ok"
               \/ mapItems dateParse toISOString toLocaleDateString firstImgSrc
                    tabId (Api.feed_title d) 0 (Api.items d) = None).
Proof.
  destruct response as [| | |d]; simpl; try (split; [eauto | done]).
  destruct (String.eqb_spec (Api.status d) "ok") as [Hok|Hno].
  - destruct (mapItems _ _ _ _ tabId (Api.feed_title d) 0 (Api.items d)) eqn:Hm.
    + split; [done|]. intros [?|[?|[?|(d' & [= <-] & [?|?])]]]; try done.
      congruence.
    + split; [|done]. intros _. do 3 right. exists d. eauto.
  - split; [|done]. intros _. do 3 right. exists d. eauto.
Qed.

(** C2.  For every tab of the current tabs: when the tab has a cache
    entry and less than five minutes have passed since the entry was
    stored, [fetchNews] sends no request and the list it leaves is the
    list of the entry, with the cache as it was.  So after a fetch that
    stored its result at [stored], a fetch of the same tab less than five
    minutes after [stored] sends no request and leaves the same list. *)
Theorem cache_hit_within_ttl network tab currentTabs now later st cached :
  tab ∈ currentTabs ->
  newsCache st !! Tab.id tab = Some cached ->
  now - timestamp cached < 5 * 60 * 1000 ->
  (exists st',
     fetchNews dateParse toISOString toLocaleDateString firstImgSrc
       network (Tab.id tab) currentTabs now later st = (st', [])
     /\ newsList st' = data cached
     /\ newsCache st' = newsCache st
     /\ loading st' = false /\ error st' = None)
  /\ (forall response stored mappedNews before,
        tryBlock dateParse toISOString toLocaleDateString firstImgSrc
          (Tab.id tab) response = Some mappedNews ->
        now - stored < 5 * 60 * 1000 ->
        let first :=
          fetchNews_resume dateParse toISOString toLocaleDateString firstImgSrc
            (Tab.id tab) response stored before in
        newsList first = mappedNews
        /\ exists second,
             fetchNews dateParse toISOString toLocaleDateString firstImgSrc
               network (Tab.id tab) currentTabs now later first = (second, [])
             /\ newsList second = newsList first).
Proof.
  intros Hin Hcached Hfresh.
  assert (exists tab', tab' ∈ currentTabs /\ Tab.id tab' = Tab.id tab) as Htab
    by by exists tab.
  set (tabId := Tab.id tab) in *. split.
  - unfold fetchNews. rewrite (fetchNews_begin_hit _ _ _ _ cached) by done.
    eexists. split; [reflexivity|]. done.
  - intros response stored mappedNews before Htry Hstored first.
    assert (newsList first = mappedNews) as Hfirst.
    { subst first. unfold fetchNews_resume. by rewrite Htry. }
    split; [done|].
    assert (newsCache first !! tabId = Some (mkEntry mappedNews stored)) as Hentry.
    { subst first. unfold fetchNews_resume. rewrite Htry. simpl.
      apply lookup_insert_eq. }
    unfold fetchNews.
    rewrite (fetchNews_begin_hit _ _ _ _ (mkEntry mappedNews stored)) by done.
    eexists. split; [reflexivity|]. rewrite Hfirst. reflexivity.
Qed.

(** C10.  When the fetch fails, by a transport error, an HTTP status
    that is not ok, a body that is not JSON, an API status other than
    "ok", or an exception while the items are normalized, the cache is
    left exactly as it was.  Whatever the response, the only change
    [fetchNews] ever makes to the cache is to store the sorted and cut
    list under the fetched tab, and it makes it on success only. *)
Theorem failed_fetch_keeps_cache tabId response now st :
  (response = NetworkFailure \/ response = HttpError \/ response = InvalidBody
   \/ exists d, response = Body d
        /\ (Api.status d <> "ok"
            \/ mapItems dateParse toISOString toLocaleDateString firstImgSrc
                 tabId (Api.feed_title d) 0 (Api.items d) = None)) ->
  newsCache (fetchNews_resume dateParse toISOString toLocaleDateString firstImgSrc
               tabId response now st) = newsCache st
  /\ (forall network currentTabs before later,
        (forall request, network request = response) ->
        newsCache (fetchNews dateParse toISOString toLocaleDateString firstImgSrc
                     network tabId currentTabs before later st).1 = newsCache st)
  /\ (forall network currentTabs before later other,
        let after :=
          newsCache (fetchNews dateParse toISOString toLocaleDateString firstImgSrc
                       network tabId currentTabs before later other).1 in
        after = newsCache other
        \/ exists request mappedNews,
             tryBlock dateParse toISOString toLocaleDateString firstImgSrc
               tabId (network request) = Some mappedNews
             /\ after = <[tabId := mkEntry mappedNews later]> (newsCache other)).
Proof.
  intros Hfail. apply tryBlock_None in Hfail.
  assert (forall st0, newsCache (fetchNews_resume dateParse toISOString
            toLocaleDateString firstImgSrc tabId response now st0) = newsCache st0)
    as Hresume.
  { intros st0. unfold fetchNews_resume. rewrite Hfail.
    by destruct (newsCache st0 !! tabId). }
  split; [apply Hresume|]. split.
  - intros network currentTabs before later Hnet. unfold fetchNews.
    pose proof (fetchNews_begin_frame tabId currentTabs before st) as (Hc & _).
    destruct (fetchNews_begin tabId currentTabs before st) as [st'|st' request];
      simpl in *; [done|].
    rewrite Hnet. unfold fetchNews_resume. rewrite Hfail.
    by destruct (newsCache st' !! tabId).
  - intros network currentTabs before later other after. subst after.
    unfold fetchNews.
    pose proof (fetchNews_begin_frame tabId currentTabs before other) as (Hc & _).
    destruct (fetchNews_begin tabId currentTabs before other) as [st'|st' request];
      simpl in *; [by left|].
    unfold fetchNews_resume.
    destruct (tryBlock _ _ _ _ tabId (network request)) as [mappedNews|] eqn:Htry.
    + right. exists request, mappedNews. split; [done|]. simpl. by rewrite Hc.
    + left. by destruct (newsCache st' !! tabId).
Qed.
End Cache.

(** C2 on the sample [App]: the first tab was stored a minute ago. *)
Lemma cache_hit_within_ttl_witness :
  Tab.mk "tab-1" "バス減便" "fa-bus" "バス 減便" ∈ Sample.DEFAULT_TABS
  /\ newsCache Sample.app !! "tab-1"
     = Some (mkEntry [Sample.busArticle] (Sample.NOON - 60000))
  /\ Sample.NOON - (Sample.NOON - 60000) < 5 * 60 * 1000
  /\ exists st',
       fetchNews Browser.dateParse Browser.toISOString Browser.toLocaleDateString
         Browser.firstImgSrc Sample.offline "tab-1" Sample.DEFAULT_TABS
         Sample.NOON (Sample.NOON + 500) Sample.app = (st', [])
       /\ newsList st' = [Sample.busArticle]
       /\ newsCache st' = newsCache Sample.app
       /\ loading st' = false /\ error st' = None.
Proof.
  assert (Tab.mk "tab-1" "バス減便" "fa-bus" "バス 減便" ∈ Sample.DEFAULT_TABS) as Htab
    by constructor.
  assert (newsCache Sample.app !! "tab-1"
          = Some (mkEntry [Sample.busArticle] (Sample.NOON - 60000))) as Hentry
    by (vm_compute; reflexivity).
  assert (Sample.NOON - (Sample.NOON - 60000) < 5 * 60 * 1000) as Hfresh by lia.
  split; [exact Htab|]. split; [exact Hentry|]. split; [exact Hfresh|].
  exact (proj1 (cache_hit_within_ttl Browser.dateParse Browser.toISOString
                  Browser.toLocaleDateString Browser.firstImgSrc Sample.offline
                  (Tab.mk "tab-1" "バス減便" "fa-bus" "バス 減便")
                  Sample.DEFAULT_TABS Sample.NOON (Sample.NOON + 500)
                  Sample.app _ Htab Hentry Hfresh)).
Defined.

(** C10 on the sample [App]: the server answers with an error status. *)
Lemma failed_fetch_keeps_cache_witness :
  newsCache (fetchNews_resume Browser.dateParse Browser.toISOString
               Browser.toLocaleDateString Browser.firstImgSrc
               "tab-1" HttpError Sample.LATER Sample.app)
  = newsCache Sample.app.
Proof.
  exact (proj1 (failed_fetch_keeps_cache Browser.dateParse Browser.toISOString
                  Browser.toLocaleDateString Browser.firstImgSrc
                  "tab-1" HttpError Sample.LATER Sample.app
                  (or_intror (or_introl eq_refl)))).
Defined.

(** At five minutes exactly the entry is no longer used: the request goes
    out. *)
Example cache_expired_at_ttl :
  fetchNews_begin "tab-1" Sample.DEFAULT_TABS (Sample.NOON - 60000 + 300000) Sample.app
  = Awaiting (setError None (setLoading true Sample.app))
      (apiUrl (getRssUrl "バス 減便"))
  /\ exists st',
       fetchNews_begin "tab-1" Sample.DEFAULT_TABS (Sample.NOON - 60000 + 299999)
         Sample.app = Returned st'.
Proof. split; [vm_compute; reflexivity | eexists; vm_compute; reflexivity]. Qed.

(** An item whose date does not parse makes the callback throw: the fetch
    fails as a whole and the cache keeps its two entries. *)
Example invalid_date_fails_the_fetch :
  tryBlock Browser.dateParse Browser.toISOString Browser.toLocaleDateString
    Browser.firstImgSrc "tab-1" (Body Sample.brokenFeed) = None
  /\ newsCache (fetchNews_resume Browser.dateParse Browser.toISOString
                  Browser.toLocaleDateString Browser.firstImgSrc
                  "tab-1" (Body Sample.brokenFeed) Sample.LATER Sample.app)
     = Sample.twoEntries.
Proof. split; vm_compute; reflexivity. Qed.

(** ** The failure fallback and what is rendered *)

Section Fallback.
Context (dateParse : string -> option Z)
        (toISOString toLocaleDateString : Z -> string)
        (firstImgSrc : string -> option string).

(** The state a failed fetch leaves: the cached list and the stale
    message when the tab has an entry, otherwise the failure message and
    the list that was there before. *)
Lemma failure_fallback_state tabId response now st :
  tryBlock dateParse toISOString toLocaleDateString firstImgSrc tabId response = None ->
  let st' := fetchNews_resume dateParse toISOString toLocaleDateString firstImgSrc
               tabId response now st in
  loading st' = false
  /\ match newsCache st !! tabId with
     | Some cached => newsList st' = data cached /\ error st' = Some STALE_MESSAGE
     | None => newsList st' = newsList st /\ error st' = Some FAILURE_MESSAGE
     end.
Proof.
  intros Hfail. unfold fetchNews_resume. rewrite Hfail.
  by destruct (newsCache st !! tabId).
Qed.

(** An error message takes the place of the article grid. *)
Lemma render_error st c m :
  loading st = false -> error st = Some (String c m) ->
  render st = ErrorPanel (String c m).
Proof. unfold render. by intros -> ->. Qed.

(** so after any failed fetch the main area is the error panel *)
Lemma render_after_failure tabId response now st :
  tryBlock dateParse toISOString toLocaleDateString firstImgSrc tabId response = None ->
  render (fetchNews_resume dateParse toISOString toLocaleDateString firstImgSrc
            tabId response now st)
  = ErrorPanel (match newsCache st !! tabId with
                | Some _ => STALE_MESSAGE
                | None => FAILURE_MESSAGE
                end).
Proof.
  intros Hfail.
  destruct (failure_fallback_state tabId response now st Hfail) as [Hl Hm].
  destruct (newsCache st !! tabId); destruct Hm as [_ He];
    by apply render_error.
Qed.
End Fallback.

(** C3 at its failing input.  The user goes from the second tab to the
    first, whose entry is eleven minutes old, and the server answers the
    request with an error status.  [fetchNews] puts the cached list in the
    state and sets the message that says the earlier data are displayed;
    what is rendered is the error panel with that message, and no
    article. *)
Lemma stale_fallback_hidden_by_error_panel :
  let started := act (SwitchTab "tab-1") Sample.LATER Sample.appOnTrial in
  let settled :=
    fetchNews_resume Browser.dateParse Browser.toISOString Browser.toLocaleDateString
      Browser.firstImgSrc "tab-1" HttpError (Sample.LATER + 500) (stateOf started) in
  newsCache Sample.appOnTrial !! "tab-1"
  = Some (mkEntry [Sample.busArticle] (Sample.LATER - 660000))
  /\ started = Awaiting (stateOf started) (apiUrl (getRssUrl "バス 減便"))
  /\ newsList settled = [Sample.busArticle]
  /\ error settled = Some STALE_MESSAGE
  /\ loading settled = false
  /\ render settled = ErrorPanel STALE_MESSAGE
  /\ render settled <> ArticleGrid [Sample.busArticle].
Proof. vm_compute. repeat split; discriminate. Qed.

(** The other half of C3: with nothing cached the failure message is
    rendered, and no article. *)
Example failure_without_cache :
  let run :=
    fetchNews Browser.dateParse Browser.toISOString Browser.toLocaleDateString
      Browser.firstImgSrc Sample.offline "tab-2" Sample.DEFAULT_TABS
      Sample.NOON (Sample.NOON + 500) Sample.appOnSecond in
  newsCache run.1 = ∅
  /\ error run.1 = Some FAILURE_MESSAGE
  /\ render run.1 = ErrorPanel FAILURE_MESSAGE.
Proof. vm_compute. repeat split. Qed.

(** ** Saving the tab settings *)

(** C6, as amended.  Saving the tab settings empties the cache: the entry
    of an edited tab goes and so does the entry of every other tab.  The
    fetch of the active tab that the save starts can store an entry for
    the active tab and for no other. *)
Theorem save_settings_clears_cache newTabs newMaxTabs now st :
  let saved := stateOf (handleSaveSettings newTabs newMaxTabs now st) in
  newsCache saved = ∅
  /\ tabs saved = newTabs /\ maxTabs saved = newMaxTabs
  /\ activeTabId saved = activeTabId st
  /\ (forall dateParse toISOString toLocaleDateString firstImgSrc response later,
        dom (newsCache (fetchNews_resume dateParse toISOString toLocaleDateString
                          firstImgSrc (activeTabId st) response later saved))
        ⊆ {[ activeTabId st ]}).
Proof.
  intros saved. unfold handleSaveSettings in saved.
  match goal with
  | saved := stateOf (fetchNews_begin ?t ?c ?n ?s) |- _ =>
      destruct (fetchNews_begin_frame t c n s) as (Hc & _ & _ & Ht & Ha & Hm)
  end.
  fold saved in Hc, Ht, Ha, Hm. simpl in Hc, Ht, Ha, Hm.
  repeat split; try done.
  intros. unfold fetchNews_resume.
  destruct (tryBlock _ _ _ _ _ response); simpl.
  - rewrite Hc, dom_insert_L, dom_empty_L, union_empty_r_L. done.
  - destruct (newsCache saved !! activeTabId st); simpl;
      rewrite Hc, dom_empty_L; apply empty_subseteq.
Qed.

(** C6 as it is worded fails: the keyword of the first tab is edited and
    saved, and the entry of the second tab, which the wording leaves
    untouched, is gone. *)
Lemma save_drops_other_entries_counterexample :
  let saved :=
    stateOf (act (SaveSettings Sample.editedKeyword.1 Sample.editedKeyword.2)
               Sample.NOON Sample.app) in
  Tab.keyword <$> Sample.editedKeyword.1
  = ["バス 廃止"; "バス 実証実験"; "バス 自動運転";
     "https://www.gizmodo.jp/index.xml"; "多摩 歴史"]
  /\ newsCache Sample.app !! "tab-2"
     = Some (mkEntry [Sample.trialArticle] (Sample.NOON - 120000))
  /\ Spec.invalidate "tab-1" (newsCache Sample.app) !! "tab-2"
     = Some (mkEntry [Sample.trialArticle] (Sample.NOON - 120000))
  /\ newsCache saved !! "tab-2" = None.
Proof. vm_compute. repeat split. Qed.

(** ** Sorting *)

Section SortFacts.
Context {A : Type} (cmp : A -> A -> Z) (key : A -> Z).

Lemma by_key_desc_cons a l : by_key_desc cmp key (a :: l) -> by_key_desc cmp key l.
Proof. intros H x y Hx Hy. apply H; by constructor. Qed.

Lemma sort_insert_perm a l : sort_insert cmp a l ≡ₚ a :: l.
Proof.
  induction l as [|b l IH]; simpl; [done|].
  destruct (cmp a b <=? 0); [done|].
  rewrite IH. apply Permutation_swap.
Qed.

Lemma sort_perm l : sort cmp l ≡ₚ l.
Proof.
  induction l as [|a l IH]; simpl; [done|].
  by rewrite sort_insert_perm, IH.
Qed.

Lemma sort_insert_sorted a l :
  (forall b, b ∈ l -> cmp a b = key b - key a) ->
  StronglySorted (fun x y => key y <= key x) l ->
  StronglySorted (fun x y => key y <= key x) (sort_insert cmp a l).
Proof.
  intros Hcmp Hsorted. induction Hsorted as [|b l Hl IH Hb]; simpl.
  - repeat constructor.
  - pose proof (Hcmp b ltac:(constructor)) as Hab.
    destruct (cmp a b <=? 0) eqn:E.
    + apply Z.leb_le in E. constructor; [by constructor|].
      constructor; [lia|].
      eapply Forall_impl; [exact Hb|]. simpl. intros; lia.
    + apply Z.leb_gt in E. constructor.
      * apply IH. intros c Hc. apply Hcmp. by constructor.
      * rewrite sort_insert_perm. constructor; [lia | done].
Qed.

Lemma sort_sorted l :
  by_key_desc cmp key l -> StronglySorted (fun x y => key y <= key x) (sort cmp l).
Proof.
  induction l as [|a l IH]; intros Hl; simpl; [constructor|].
  apply sort_insert_sorted.
  - intros b Hb. rewrite sort_perm in Hb. apply Hl; by constructor.
  - apply IH. by eapply by_key_desc_cons.
Qed.

(** An inserted element passes only elements with a greater key, so the
    elements of any one key stay in their order. *)
Lemma sort_insert_stable a l t :
  (forall b, b ∈ l -> cmp a b = key b - key a) ->
  filter (fun x => key x = t) (sort_insert cmp a l)
  = filter (fun x => key x = t) (a :: l).
Proof.
  intros Hcmp. induction l as [|b l IH]; simpl; [done|].
  pose proof (Hcmp b ltac:(constructor)) as Hab.
  destruct (cmp a b <=? 0) eqn:E; [done|]. apply Z.leb_gt in E.
  rewrite (filter_cons _ b), IH by (intros c Hc; apply Hcmp; by constructor).
  rewrite !filter_cons.
  destruct (decide (key a = t)), (decide (key b = t)); try done. lia.
Qed.

Lemma sort_stable l t :
  by_key_desc cmp key l ->
  filter (fun x => key x = t) (sort cmp l) = filter (fun x => key x = t) l.
Proof.
  induction l as [|a l IH]; intros Hl; simpl; [done|].
  rewrite sort_insert_stable.
  - rewrite !filter_cons, IH by by eapply by_key_desc_cons. done.
  - intros b Hb. rewrite sort_perm in Hb. apply Hl; by constructor.
Qed.

(** Two lists sorted by decreasing key in which the elements of each key
    come in the same order are the same list: the stable sort of a list is
    unique, whatever the algorithm. *)
Lemma stable_sorted_unique (l1 l2 : list A) :
  StronglySorted (fun x y => key y <= key x) l1 ->
  StronglySorted (fun x y => key y <= key x) l2 ->
  (forall t, filter (fun x => key x = t) l1 = filter (fun x => key x = t) l2) ->
  l1 = l2.
Proof.
  intros H1. revert l2. induction H1 as [|a l1 Hl1 IH Ha]; intros l2 H2 Hf.
  - destruct l2 as [|b l2]; [done|].
    specialize (Hf (key b)). rewrite filter_cons in Hf.
    destruct (decide (key b = key b)); done.
  - destruct H2 as [|b l2 Hl2 Hb].
    { specialize (Hf (key a)). rewrite filter_cons in Hf.
      destruct (decide (key a = key a)); done. }
    assert (key a = key b) as Hk.
    { assert (a ∈ b :: l2) as Hin1.
      { apply (list_elem_of_filter (fun x => key x = key a)).
        rewrite <- Hf, filter_cons. destruct (decide (key a = key a)); [|done].
        constructor. }
      assert (b ∈ a :: l1) as Hin2.
      { apply (list_elem_of_filter (fun x => key x = key b)).
        rewrite Hf, filter_cons. destruct (decide (key b = key b)); [|done].
        constructor. }
      rewrite Forall_forall in Ha, Hb.
      apply elem_of_cons in Hin1 as [->|Hin1]; [done|].
      apply elem_of_cons in Hin2 as [->|Hin2]; [done|].
      specialize (Ha b Hin2). specialize (Hb a Hin1). simpl in *. lia. }
    pose proof (Hf (key a)) as Hfa. rewrite !filter_cons in Hfa.
    destruct (decide (key a = key a)); [|done].
    destruct (decide (key b = key a)); [|congruence].
    injection Hfa as <- Hfa. f_equal. apply IH; [done|].
    intros t. specialize (Hf t). rewrite !filter_cons in Hf.
    destruct (decide (key a = t)); [|done]. by injection Hf.
Qed.

(** so every stable sort by decreasing key computes [sort] *)
Lemma sort_is_the_stable_sort l l' :
  by_key_desc cmp key l ->
  StronglySorted (fun x y => key y <= key x) l' ->
  (forall t, filter (fun x => key x = t) l' = filter (fun x => key x = t) l) ->
  l' = sort cmp l.
Proof.
  intros Hl Hs Hf. apply stable_sorted_unique; [done | by apply sort_sorted |].
  intros t. by rewrite Hf, sort_stable.
Qed.
End SortFacts.

Section SortedFetch.
Context (dateParse : string -> option Z)
        (toISOString toLocaleDateString : Z -> string)
        (firstImgSrc : string -> option string).

(** Every article of a successful [map] carries the date of its item. *)
Lemma mapItems_dates tabId feed_title index items mapped :
  mapItems dateParse toISOString toLocaleDateString firstImgSrc
    tabId feed_title index items = Some mapped ->
  Forall2 (fun item a => exists t, dateParse (Item.pubDate item) = Some t
                                   /\ Article.pubDate a = toISOString t)
    items mapped.
Proof.
  revert index mapped. induction items as [|item items IH]; intros index mapped; simpl.
  - intros [= <-]. constructor.
  - destruct (mapItem _ _ _ _ tabId feed_title index item) as [a|] eqn:Ha; [|done].
    destruct (mapItems _ _ _ _ tabId feed_title (S index) items) as [l|] eqn:Hl;
      [|done].
    intros [= <-]. constructor; [|by eapply IH].
    unfold mapItem in Ha.
    destruct (titleAndSource feed_title item) as [[title source]|]; [|done].
    destruct (dateParse (Item.pubDate item)) as [t|]; [|done].
    injection Ha as <-. by exists t.
Qed.

Lemma dates_round_trip items mapped :
  Forall2 (fun item a => exists t, dateParse (Item.pubDate item) = Some t
                                   /\ Article.pubDate a = toISOString t)
    items mapped ->
  (forall item t, item ∈ items ->
     dateParse (Item.pubDate item) = Some t -> dateParse (toISOString t) = Some t) ->
  Forall2 (fun item a => dateParse (Item.pubDate item) = Some (pubTime dateParse a)) items mapped
  /\ Forall (fun a => dateParse (Article.pubDate a) = Some (pubTime dateParse a)) mapped.
Proof.
  induction 1 as [|item a items mapped (t & Ht & Hp) _ IH]; intros Hiso.
  - split; constructor.
  - destruct IH as [IH1 IH2].
    { intros item' t' Hin. apply Hiso. by constructor. }
    assert (dateParse (Article.pubDate a) = Some (pubTime dateParse a)) as Ha.
    { unfold pubTime. rewrite Hp, (Hiso item t) by (done || constructor). done. }
    split; constructor; try done.
    rewrite Ht. f_equal. unfold pubTime.
    rewrite Hp, (Hiso item t) by (done || constructor). done.
Qed.

Lemma compareFn_by_key mapped :
  Forall (fun a => dateParse (Article.pubDate a) = Some (pubTime dateParse a)) mapped ->
  by_key_desc (compareFn dateParse) (pubTime dateParse) mapped.
Proof.
  rewrite Forall_forall. intros Hvalid a b Ha Hb. unfold compareFn.
  by rewrite (Hvalid a Ha), (Hvalid b Hb).
Qed.

(** C1.  After a successful fetch the list shown, which is also the list
    stored in the cache, is the first twelve of the normalized items
    sorted by date: together with the articles that were cut it is a
    rearrangement of all the normalized items, most recent first, the
    articles of one same date in their upstream order; no article that
    was cut is more recent than one that was kept; and the list has
    twelve articles when the feed has more than twelve items, all of
    them otherwise.  The dates are those of the upstream items. *)
Theorem sorted_then_truncated tabId d mapped now st :
  Api.status d = "ok" ->
  mapItems dateParse toISOString toLocaleDateString firstImgSrc
    tabId (Api.feed_title d) 0 (Api.items d) = Some mapped ->
  (forall item t, item ∈ Api.items d ->
     dateParse (Item.pubDate item) = Some t -> dateParse (toISOString t) = Some t) ->
  let st' := fetchNews_resume dateParse toISOString toLocaleDateString firstImgSrc
               tabId (Body d) now st in
  exists cut,
    newsList st' ++ cut ≡ₚ mapped
    /\ StronglySorted (fun a b => pubTime dateParse b <= pubTime dateParse a) (newsList st' ++ cut)
    /\ (forall t, filter (fun a => pubTime dateParse a = t) (newsList st' ++ cut)
                  = filter (fun a => pubTime dateParse a = t) mapped)
    /\ (forall a b, a ∈ newsList st' -> b ∈ cut -> pubTime dateParse b <= pubTime dateParse a)
    /\ length (newsList st') = Nat.min 12 (length (Api.items d))
    /\ ((12 < length (Api.items d))%nat -> length (newsList st') = 12%nat)
    /\ Forall2 (fun item a => dateParse (Item.pubDate item) = Some (pubTime dateParse a))
         (Api.items d) mapped
    /\ newsCache st' !! tabId = Some (mkEntry (newsList st') now).
Proof.
  intros Hok Hmap Hiso st'.
  pose proof (mapItems_dates _ _ _ _ _ Hmap) as Hdates.
  destruct (dates_round_trip _ _ Hdates Hiso) as [Htimes Hvalid].
  pose proof (compareFn_by_key _ Hvalid) as Hkey.
  set (sorted := sort (compareFn dateParse) mapped).
  assert (st' = setLoading false
                  (setNewsList (slice0 12 sorted)
                     (setNewsCache (<[tabId := mkEntry (slice0 12 sorted) now]>
                                      (newsCache st)) st))) as ->.
  { subst st'. unfold fetchNews_resume, tryBlock.
    rewrite Hok, Hmap. reflexivity. }
  cbn [newsList newsCache error setLoading setNewsList setNewsCache].
  unfold slice0.
  assert (length sorted = length (Api.items d)) as Hlen.
  { unfold sorted. rewrite (Permutation_length (sort_perm _ mapped)).
    symmetry. by eapply Forall2_length. }
  assert (StronglySorted (fun a b => pubTime dateParse b <= pubTime dateParse a) sorted) as Hsorted
    by by apply sort_sorted.
  exists (drop 12 sorted). rewrite take_drop.
  split; [apply sort_perm|]. split; [done|].
  split; [intros t; by apply sort_stable|].
  split.
  { intros a b Ha Hb. rewrite <- (take_drop 12 sorted) in Hsorted.
    exact (StronglySorted_app_1_elem_of _ _ _ _ _ Hsorted Ha Hb). }
  split; [rewrite length_take; lia|].
  split; [rewrite length_take; lia|].
  split; [done|]. apply lookup_insert_eq.
Qed.
End SortedFetch.

(** C1 on a feed of fourteen items: twelve are kept, the two oldest are
    cut, and the two pairs of equal dates keep their upstream order. *)
Lemma sorted_then_truncated_witness :
  let st' := fetchNews_resume Browser.dateParse Browser.toISOString
               Browser.toLocaleDateString Browser.firstImgSrc
               "tab-2" (Body Sample.feed) Sample.NOON Sample.appOnSecond in
  Api.status Sample.feed = "ok"
  /\ is_Some (mapItems Browser.dateParse Browser.toISOString Browser.toLocaleDateString
                Browser.firstImgSrc "tab-2" (Api.feed_title Sample.feed) 0
                (Api.items Sample.feed))
  /\ (forall item t, item ∈ Api.items Sample.feed ->
        Browser.dateParse (Item.pubDate item) = Some t ->
        Browser.dateParse (Browser.toISOString t) = Some t)
  /\ (12 < length (Api.items Sample.feed))%nat
  /\ length (newsList st') = 12%nat
  /\ Article.title <$> newsList st'
     = ["Survey results"; "Fare rise"; "Driver shortage"; "Night bus trial";
        "Snow delays"; "Depot opens"; "Road works"; "New stop";
        "Route 12 returns"; "Electric fleet"; "Holiday service"; "Ticket app"].
Proof.
  intros st'.
  destruct (mapItems Browser.dateParse Browser.toISOString Browser.toLocaleDateString
              Browser.firstImgSrc "tab-2" (Api.feed_title Sample.feed) 0
              (Api.items Sample.feed)) as [mapped|] eqn:Hmap;
    [|vm_compute in Hmap; discriminate].
  assert (forall item t, item ∈ Api.items Sample.feed ->
            Browser.dateParse (Item.pubDate item) = Some t ->
            Browser.dateParse (Browser.toISOString t) = Some t) as Hiso.
  { intros item t Hin. revert t. revert item Hin.
    refine (proj1 (Forall_forall _ _) _).
    repeat (apply List.Forall_cons;
            [intros t Ht; vm_compute in Ht; injection Ht as <-;
             vm_compute; reflexivity|]).
    apply List.Forall_nil. }
  assert ((12 < length (Api.items Sample.feed))%nat) as Hmany by (vm_compute; lia).
  split; [reflexivity|]. split; [by eexists|]. split; [exact Hiso|].
  split; [exact Hmany|]. split; [|vm_compute; reflexivity].
  destruct (sorted_then_truncated Browser.dateParse Browser.toISOString
              Browser.toLocaleDateString Browser.firstImgSrc
              "tab-2" Sample.feed mapped Sample.NOON Sample.appOnSecond
              eq_refl Hmap Hiso) as (cut & _ & _ & _ & _ & _ & Hlen & _).
  exact (Hlen Hmany).
Defined.

(** * Further properties of the code *)

(** ** Reordering the tabs in the editor *)

Section Reordering.
Import Modal Editing.

Lemma setEditingTabs_same m : setEditingTabs (editingTabs m) m = m.
Proof. by destruct m. Qed.

Lemma spliceIn_perm {A} i (x : A) l : spliceIn i x l ≡ₚ x :: l.
Proof.
  unfold spliceIn. rewrite <- Permutation_middle. by rewrite take_drop.
Qed.

Lemma spliceIn_lookup {A} i (x : A) l :
  (i <= length l)%nat -> spliceIn i x l !! i = Some x.
Proof.
  intros Hi. unfold spliceIn.
  rewrite lookup_app_r by (rewrite length_take; lia).
  rewrite length_take. by replace (i - i `min` length l)%nat with 0%nat by lia.
Qed.

Lemma delete_spliceIn {A} i (x : A) l :
  (i <= length l)%nat -> delete i (spliceIn i x l) = l.
Proof.
  intros Hi. unfold spliceIn. rewrite delete_take_drop.
  rewrite take_app_le by (rewrite length_take; lia).
  rewrite take_take, Nat.min_id.
  rewrite drop_app_ge by (rewrite length_take; lia).
  rewrite length_take.
  replace (S i - i `min` length l)%nat with 1%nat by lia.
  simpl. rewrite drop_0. apply take_drop.
Qed.

Lemma spliceIn_delete {A} i (x : A) l :
  l !! i = Some x -> spliceIn i x (delete i l) = l.
Proof.
  intros Hx. unfold spliceIn. rewrite delete_take_drop.
  pose proof (lookup_lt_Some _ _ _ Hx) as Hlt.
  rewrite take_app_le by (rewrite length_take; lia).
  rewrite take_take, Nat.min_id.
  rewrite drop_app_ge by (rewrite length_take; lia).
  rewrite length_take.
  replace (i - i `min` length l)%nat with 0%nat by lia.
  rewrite drop_0. by apply take_drop_middle.
Qed.

Lemma spliceIn_lookup_lt {A} i j (x : A) l :
  (j < i)%nat -> (i <= length l)%nat -> spliceIn i x l !! j = l !! j.
Proof.
  intros Hj Hi. unfold spliceIn.
  rewrite lookup_app_l by (rewrite length_take; lia). by apply lookup_take_lt.
Qed.

Lemma spliceIn_lookup_gt {A} i j (x : A) l :
  (i < j)%nat -> (i <= length l)%nat -> spliceIn i x l !! j = l !! (j - 1)%nat.
Proof.
  intros Hj Hi. unfold spliceIn.
  rewrite lookup_app_r by (rewrite length_take; lia).
  rewrite length_take. replace (i `min` length l)%nat with i by lia.
  destruct (j - i)%nat as [|k] eqn:Hk; [lia|]. simpl.
  rewrite lookup_drop. f_equal. lia.
Qed.

(** X12.  Dragging the tab at [from] over the place [to] of another
    listed tab takes that tab out and puts it in at [to]: the tabs between
    the two places move by one place towards [from], every other tab stays
    where it is, so the other tabs keep their order; the same tabs are
    there, [to] is the dragged index, and dragging the tab back over
    [from] gives the first order again. *)
Theorem drag_over_moves_and_returns (m : Modal.t) (from to : nat) (tab : Tab.t) :
  draggedIndex m = Some from ->
  editingTabs m !! from = Some tab ->
  (to < length (editingTabs m))%nat ->
  from <> to ->
  exists m',
    handleDragOver to m = Some m'
    /\ (forall i,
          editingTabs m' !! i
          = if decide (i = to) then Some tab
            else if decide (from <= i < to)%nat then editingTabs m !! S i
            else if decide (to < i <= from)%nat then editingTabs m !! (i - 1)%nat
            else editingTabs m !! i)
    /\ delete to (editingTabs m') = delete from (editingTabs m)
    /\ editingTabs m' ≡ₚ editingTabs m
    /\ editingTabs m' !! to = Some tab
    /\ draggedIndex m' = Some to
    /\ editingMaxTabs m' = editingMaxTabs m
    /\ exists m'',
         handleDragOver from m' = Some m''
         /\ editingTabs m'' = editingTabs m
         /\ draggedIndex m'' = Some from.
Proof.
  intros Hd Htab Hto Hne. unfold handleDragOver. rewrite Hd, Htab.
  destruct (from =? to)%nat eqn:E; [apply Nat.eqb_eq in E; done|].
  pose proof (lookup_lt_Some _ _ _ Htab) as Hfrom.
  assert (length (delete from (editingTabs m)) = (length (editingTabs m) - 1)%nat)
    as Hlen by (rewrite length_delete; [lia | eauto]).
  eexists. split; [reflexivity|]. cbn.
  split.
  { intros i. destruct (decide (i = to)) as [->|Hi]; [apply spliceIn_lookup; lia|].
    destruct (decide (i < to)%nat) as [Hlt|Hge].
    - rewrite spliceIn_lookup_lt by lia.
      destruct (decide (from <= i < to)%nat).
      + apply list_lookup_delete_ge. lia.
      + destruct (decide (to < i <= from)%nat); [lia|].
        apply list_lookup_delete_lt. lia.
    - rewrite spliceIn_lookup_gt by lia.
      destruct (decide (from <= i < to)%nat); [lia|].
      destruct (decide (to < i <= from)%nat).
      + apply list_lookup_delete_lt. lia.
      + rewrite list_lookup_delete_ge by lia. f_equal. lia. }
  split. { apply delete_spliceIn. lia. }
  split. { rewrite spliceIn_perm. symmetry. by apply delete_Permutation. }
  split. { apply spliceIn_lookup. lia. }
  split; [done|]. split; [done|].
  rewrite spliceIn_lookup by lia.
  destruct (to =? from)%nat eqn:E'; [apply Nat.eqb_eq in E'; done|].
  eexists. split; [reflexivity|]. cbn. split; [|done].
  rewrite delete_spliceIn by lia. by apply spliceIn_delete.
Qed.

Lemma swap_adjacent {A} (pre : list A) b a post :
  <[length pre := a]> (<[S (length pre) := b]> (pre ++ b :: a :: post))
  = pre ++ a :: b :: post
  /\ <[S (length pre) := b]> (<[length pre := a]> (pre ++ b :: a :: post))
     = pre ++ a :: b :: post
  /\ spliceIn (length pre) a (delete (S (length pre)) (pre ++ b :: a :: post))
     = pre ++ a :: b :: post.
Proof.
  induction pre as [|x pre (IH1 & IH2 & IH3)]; [done|].
  simpl. rewrite IH1, IH2. unfold spliceIn in *. simpl. by rewrite IH3.
Qed.

Lemma lookup_adjacent {A} (pre : list A) b a post :
  (pre ++ b :: a :: post) !! length pre = Some b
  /\ (pre ++ b :: a :: post) !! S (length pre) = Some a.
Proof.
  split.
  - by rewrite list_lookup_middle.
  - change (pre ++ b :: a :: post) with (pre ++ [b] ++ a :: post).
    rewrite app_assoc.
    rewrite list_lookup_middle; [done|]. rewrite length_app. simpl. lia.
Qed.

(** X11.  The arrow buttons exchange a tab with its neighbour and leave
    every other tab in place: moving the lower one up and moving the upper
    one down give the same list, which is also what dragging the lower one
    over the upper one gives, and moving the tab back down restores the
    list.  The up arrow on the first tab and the down arrow on the last one
    change nothing. *)
Theorem move_tab_swaps_neighbours (m : Modal.t) pre upper lower post :
  editingTabs m = pre ++ upper :: lower :: post ->
  let moved := setEditingTabs (pre ++ lower :: upper :: post) m in
  moveTab (S (length pre)) Up m = Some moved
  /\ moveTab (length pre) Down m = Some moved
  /\ (editingTabs <$>
        handleDragOver (length pre) (handleDragStart (S (length pre)) m))
     = Some (editingTabs moved)
  /\ moveTab (length pre) Down moved = Some m
  /\ moveTab 0 Up m = Some m
  /\ moveTab (length (editingTabs m) - 1) Down m = Some m.
Proof.
  intros Hm moved.
  destruct (lookup_adjacent pre upper lower post) as [Hu Hl].
  destruct (swap_adjacent pre upper lower post) as (Hs1 & Hs2 & Hs3).
  assert (forall i n : nat, (i < n - 1)%nat ->
            (Z.of_nat i =? Z.of_nat n - 1) = false) as Hnot
    by (intros; apply Z.eqb_neq; lia).
  repeat split.
  - unfold moveTab. rewrite Hm. simpl.
    rewrite Nat.sub_0_r, Hu, Hl. by rewrite Hs1.
  - unfold moveTab. rewrite Hm.
    rewrite Hnot by (rewrite length_app; simpl; lia).
    replace (length pre + 1)%nat with (S (length pre)) by lia.
    by rewrite Hu, Hl, Hs2.
  - assert ((S (length pre) =? length pre)%nat = false) as E
      by (apply Nat.eqb_neq; lia).
    unfold handleDragOver, handleDragStart. cbn -[Nat.eqb].
    rewrite E, Hm, Hl. cbn -[Nat.eqb]. by rewrite Hs3.
  - unfold moveTab, moved. cbn.
    rewrite Hnot by (rewrite length_app; simpl; lia).
    replace (length pre + 1)%nat with (S (length pre)) by lia.
    destruct (lookup_adjacent pre lower upper post) as [Hu' Hl'].
    destruct (swap_adjacent pre lower upper post) as (_ & Hs2' & _).
    rewrite Hu', Hl', Hs2', <- Hm. by destruct m.
  - unfold moveTab. rewrite Hm, length_app. simpl.
    replace (length pre + S (S (length post)) - 1)%nat
      with (S (length pre + length post)) by lia.
    replace (Z.of_nat (S (length pre + length post)) =?
             Z.of_nat (length pre + S (S (length post))) - 1) with true
      by (symmetry; apply Z.eqb_eq; lia).
    done.
Qed.
End Reordering.
(** X12 on the default tabs: the fourth tab dragged over the second. *)
Lemma drag_over_moves_and_returns_witness :
  let m := Editing.handleDragStart 3 Sample.editor in
  Modal.draggedIndex m = Some 3%nat
  /\ (1 < length (Modal.editingTabs m))%nat
  /\ exists m',
       Editing.handleDragOver 1 m = Some m'
       /\ Tab.id <$> Modal.editingTabs m' = ["tab-1"; "tab-4"; "tab-2"; "tab-3"; "tab-5"]
       /\ exists m'',
            Editing.handleDragOver 3 m' = Some m''
            /\ Modal.editingTabs m'' = Modal.editingTabs m.
Proof.
  intros m.
  destruct (drag_over_moves_and_returns m 3 1
              (Tab.mk "tab-4" "ガジェット" "fa-laptop" "https://www.gizmodo.jp/index.xml")
              eq_refl eq_refl ltac:(vm_compute; lia) ltac:(lia))
    as (m' & Hover & _ & _ & _ & _ & _ & _ & m'' & Hback & Hsame & _).
  split; [reflexivity|]. split; [vm_compute; lia|].
  exists m'. split; [exact Hover|]. split.
  - vm_compute in Hover. injection Hover as <-. reflexivity.
  - exists m''. split; [exact Hback | exact Hsame].
Defined.

(** X11 on the default tabs: the third tab moved up. *)
Lemma move_tab_swaps_neighbours_witness :
  Modal.editingTabs Sample.editor
  = [Tab.mk "tab-1" "バス減便" "fa-bus" "バス 減便"]
      ++ Tab.mk "tab-2" "バス実証実験" "fa-flask" "バス 実証実験"
      :: Tab.mk "tab-3" "バス自動運転" "fa-robot" "バス 自動運転"
      :: [Tab.mk "tab-4" "ガジェット" "fa-laptop" "https://www.gizmodo.jp/index.xml";
          Tab.mk "tab-5" "多摩の歴史" "fa-landmark" "多摩 歴史"]
  /\ (fmap Tab.id ∘ Modal.editingTabs <$> Editing.moveTab 2 Editing.Up Sample.editor)
     = Some ["tab-1"; "tab-3"; "tab-2"; "tab-4"; "tab-5"].
Proof.
  split; [reflexivity|].
  pose proof (proj1 (move_tab_swaps_neighbours Sample.editor
                      [Tab.mk "tab-1" "バス減便" "fa-bus" "バス 減便"] _ _ _ eq_refl))
    as Hup.
  change (S (length [Tab.mk "tab-1" "バス減便" "fa-bus" "バス 減便"])) with 2%nat in Hup.
  rewrite Hup. reflexivity.
Defined.

(** ** Editing, deleting, and a whole session of the editor *)

Section EditorSession.
Import Modal Editing.

(** X13.  A change typed into the row of a listed tab replaces that one
    field of that one tab: the other tabs, the order, the number of tabs
    and the maximum stay, and unless the field is the id, so do all the
    ids. *)
Theorem handle_change_is_local (m : Modal.t) index field value tab :
  editingTabs m !! index = Some tab ->
  let m' := handleChange index field value m in
  editingTabs m' !! index = Some (setField field value tab)
  /\ (forall j, j <> index -> editingTabs m' !! j = editingTabs m !! j)
  /\ length (editingTabs m') = length (editingTabs m)
  /\ editingMaxTabs m' = editingMaxTabs m
  /\ (field <> Id -> Tab.id <$> editingTabs m' = Tab.id <$> editingTabs m).
Proof.
  intros Htab m'. subst m'. unfold handleChange. cbn.
  split. { by rewrite list_lookup_alter_eq, Htab. }
  split. { intros j Hj. by apply list_lookup_alter_ne; congruence. }
  split; [apply length_alter|]. split; [done|].
  intros Hfield. apply list_eq. intros j. rewrite !list_lookup_fmap.
  destruct (decide (j = index)) as [->|Hj].
  - rewrite list_lookup_alter_eq, Htab. simpl. by destruct field.
  - by rewrite list_lookup_alter_ne by congruence.
Qed.

Lemma filterIndex_all {A} keep start (l : list A) :
  (forall i, (start <= i)%nat -> keep i = true) -> filterIndex keep start l = l.
Proof.
  revert start. induction l as [|x l IH]; intros start Hkeep; [done|].
  simpl. rewrite Hkeep by lia. f_equal. apply IH. intros; apply Hkeep; lia.
Qed.

(** The filter on the position that the code writes removes the element at
    that position. *)
Lemma filterIndex_delete {A} (l : list A) start index :
  filterIndex (fun i => negb (i =? start + index)%nat) start l = delete index l.
Proof.
  revert start index. induction l as [|x l IH]; intros start index; [done|].
  simpl. destruct index as [|index].
  - rewrite Nat.add_0_r, Nat.eqb_refl. simpl.
    apply filterIndex_all. intros i Hi. apply negb_true_iff, Nat.eqb_neq. lia.
  - replace (start =? start + S index)%nat with false
      by (symmetry; apply Nat.eqb_neq; lia).
    simpl. f_equal. rewrite <- (IH (S start) index).
    by replace (S start + index)%nat with (start + S index)%nat by lia.
Qed.

Lemma delete_past_end {A} (l : list A) i : (length l <= i)%nat -> delete i l = l.
Proof.
  revert i. induction l as [|x l IH]; intros [|i] Hi; simpl in *; try done; [lia|].
  f_equal. apply IH. lia.
Qed.

(** X15.  Deleting keeps, of the tabs, those whose position is not the
    one given, as the filter of the code says.  With more than one tab and
    the position of a listed tab, exactly that tab goes and the others
    keep their order; a position past the end removes nothing; and at
    least one tab is always left. *)
Theorem handle_delete_removes_one (m : Modal.t) index :
  editingTabs (handleDeleteTab index m)
  = (if (length (editingTabs m) <=? 1)%nat then editingTabs m
     else filterIndex (fun i => negb (i =? index)%nat) 0 (editingTabs m))
  /\ ((1 < length (editingTabs m))%nat -> (index < length (editingTabs m))%nat ->
        editingTabs (handleDeleteTab index m)
        = take index (editingTabs m) ++ drop (S index) (editingTabs m)
        /\ length (editingTabs (handleDeleteTab index m))
           = (length (editingTabs m) - 1)%nat)
  /\ ((length (editingTabs m) <= index)%nat -> handleDeleteTab index m = m)
  /\ ((1 <= length (editingTabs m))%nat ->
        (1 <= length (editingTabs (handleDeleteTab index m)))%nat).
Proof.
  unfold handleDeleteTab.
  destruct (length (editingTabs m) <=? 1)%nat eqn:E.
  - apply Nat.leb_le in E. repeat split; try done; lia.
  - apply Nat.leb_gt in E. cbn. split.
    { symmetry. apply (filterIndex_delete (editingTabs m) 0). }
    split.
    { intros _ Hi. split; [apply delete_take_drop|].
      rewrite length_delete; [lia|]. by apply lookup_lt_is_Some. }
    split.
    { intros Hi. rewrite delete_past_end by done. by destruct m. }
    intros _. destruct (decide (index < length (editingTabs m))%nat).
    + rewrite length_delete; [lia|]. by apply lookup_lt_is_Some.
    + rewrite delete_past_end by lia. lia.
Qed.

Lemma step_keeps_bounds a m m' :
  (1 <= length (editingTabs m) <= 20)%nat -> 1 <= editingMaxTabs m <= 20 ->
  step a m = Some m' ->
  (1 <= length (editingTabs m') <= 20)%nat /\ 1 <= editingMaxTabs m' <= 20.
Proof.
  intros Hlen Hmax Hstep. destruct a; simpl in Hstep.
  - injection Hstep as <-. unfold handleChange. cbn. by rewrite length_alter.
  - injection Hstep as <-. unfold handleAddTab.
    destruct (Z.of_nat (length (editingTabs m)) >=? editingMaxTabs m) eqn:E;
      [done|]. cbn. rewrite length_app. simpl. lia.
  - injection Hstep as <-.
    destruct (handle_delete_removes_one m index) as (_ & Hin & Hout & Hone).
    split; [|by unfold handleDeleteTab; destruct (_ <=? _)%nat].
    split; [apply Hone; lia|].
    destruct (decide (index < length (editingTabs m))%nat).
    + unfold handleDeleteTab. destruct (length (editingTabs m) <=? 1)%nat; [lia|].
      cbn. rewrite length_delete; [lia|]. by apply lookup_lt_is_Some.
    + rewrite Hout by lia. lia.
  - injection Hstep as <-.
    destruct (handleMaxTabsChange_cases value m) as [(n & _ & Hn & ->)|[_ ->]];
      [cbn; lia | done].
  - unfold moveTab in Hstep.
    destruct direction, index; simplify_eq; try done;
      repeat case_match; simplify_eq; try done; cbn;
      rewrite !length_insert; done.
  - by injection Hstep as <-.
  - unfold handleDragOver in Hstep. repeat case_match; simplify_eq; try done.
    cbn. unfold spliceIn.
    rewrite length_app, length_take. simpl. rewrite length_drop.
    rewrite length_delete by eauto. lia.
  - by injection Hstep as <-.
Qed.

(** X14.  Whatever the user does in the editor, in any order: starting
    with one to twenty tabs and a maximum from 1 to 20, there is always at
    least one tab and never more than twenty, and the maximum stays from 1
    to 20. *)
Theorem editor_session_keeps_bounds actions (m m' : Modal.t) :
  (1 <= length (editingTabs m) <= 20)%nat ->
  1 <= editingMaxTabs m <= 20 ->
  run actions m = Some m' ->
  (1 <= length (editingTabs m') <= 20)%nat /\ 1 <= editingMaxTabs m' <= 20.
Proof.
  revert m. induction actions as [|a actions IH]; intros m Hlen Hmax Hrun.
  - by injection Hrun as <-.
  - simpl in Hrun. destruct (step a m) as [m1|] eqn:Hstep; [|done].
    destruct (step_keeps_bounds a m m1 Hlen Hmax Hstep). by eapply IH.
Qed.
End EditorSession.

(** X13 on the default tabs: a new keyword for the first tab. *)
Lemma handle_change_is_local_witness :
  Modal.editingTabs Sample.editor !! 0%nat
  = Some (Tab.mk "tab-1" "バス減便" "fa-bus" "バス 減便")
  /\ Modal.editingTabs (Modal.handleChange 0 Modal.Keyword "バス 廃止" Sample.editor)
       !! 0%nat
     = Some (Tab.mk "tab-1" "バス減便" "fa-bus" "バス 廃止")
  /\ Tab.id <$> Modal.editingTabs (Modal.handleChange 0 Modal.Keyword "バス 廃止" Sample.editor)
     = Tab.id <$> Modal.editingTabs Sample.editor.
Proof.
  pose proof (handle_change_is_local Sample.editor 0 Modal.Keyword "バス 廃止" _ eq_refl)
    as (H0 & _ & _ & _ & Hids).
  split; [reflexivity|]. split; [exact H0|]. apply Hids. discriminate.
Defined.

(** X15 on the default tabs: the second tab deleted. *)
Lemma handle_delete_removes_one_witness :
  (1 < length (Modal.editingTabs Sample.editor))%nat
  /\ (1 < length (Modal.editingTabs Sample.editor))%nat
  /\ length (Modal.editingTabs (Modal.handleDeleteTab 1 Sample.editor)) = 4%nat.
Proof.
  assert (1 < length (Modal.editingTabs Sample.editor))%nat as H by (vm_compute; lia).
  split; [exact H|]. split; [exact H|].
  exact (proj2 (proj1 (proj2 (handle_delete_removes_one Sample.editor 1)) H H)).
Defined.

(** X14 on a session with the default tabs: two tabs added up to the
    maximum of 7, a third refused, 25 typed as the maximum, the maximum
    lowered to 2, a tab deleted, one moved and one dragged. *)
Lemma editor_session_keeps_bounds_witness :
  let session :=
    [ Editing.AddTab 1705307400123; Editing.AddTab 1705307400456;
      Editing.AddTab 1705307400789; Editing.MaxTabsChange "25";
      Editing.MaxTabsChange "2"; Editing.DeleteTab 0;
      Editing.MoveTab 2 Editing.Up; Editing.DragStart 4; Editing.DragOver 0;
      Editing.DragEnd ] in
  (1 <= length (Modal.editingTabs Sample.editor) <= 20)%nat
  /\ 1 <= Modal.editingMaxTabs Sample.editor <= 20
  /\ exists m',
       Editing.run session Sample.editor = Some m'
       /\ Tab.id <$> Modal.editingTabs m'
          = ["tab-1705307400123"; "tab-2"; "tab-4"; "tab-3"; "tab-5";
             "tab-1705307400456"]
       /\ Modal.editingMaxTabs m' = 2
       /\ (1 <= length (Modal.editingTabs m') <= 20)%nat.
Proof.
  intros session.
  assert (1 <= length (Modal.editingTabs Sample.editor) <= 20)%nat as Hlen
    by (vm_compute; lia).
  assert (1 <= Modal.editingMaxTabs Sample.editor <= 20) as Hmax by (simpl; lia).
  split; [exact Hlen|]. split; [exact Hmax|].
  destruct (Editing.run session Sample.editor) as [m'|] eqn:Hrun;
    [|vm_compute in Hrun; discriminate].
  exists m'. split; [reflexivity|].
  pose proof (proj1 (editor_session_keeps_bounds _ _ _ Hlen Hmax Hrun)) as Hb.
  vm_compute in Hrun. injection Hrun as <-.
  split; [reflexivity|]. split; [reflexivity|]. exact Hb.
Defined.


(** ** The source badge of the editor and the feed address *)

Section Badge.
Import Js Editing.

Lemma ws_head_lead c s : (0 < ws_head (String c s))%nat -> ws_lead c = true.
Proof.
  unfold ws_lead. destruct s as [|b [|d s]]; simpl.
  - destruct (is_ws1 c); [done | lia].
  - destruct (is_ws1 c); [done|]. unfold is_ws2.
    generalize (byte c) (byte b). intros x y.
    destruct (x =? 194)%N; simpl; [done | lia].
  - destruct (is_ws1 c); [done|]. unfold is_ws2, is_ws3.
    generalize (byte c) (byte b) (byte d). intros x y z.
    destruct (x =? 194)%N; [done|].
    destruct (x =? 225)%N, (x =? 226)%N, (x =? 227)%N, (x =? 239)%N;
      simpl; try done; lia.
Qed.

Lemma blank_head c s : blank (String c s) -> ws_lead c = true.
Proof.
  inversion 1 as [|ws rest Hpos Hlen Hrest Heq].
  destruct ws as [|c' ws]; [simpl in Hpos; lia|].
  rewrite append_cons in Heq. injection Heq as -> _.
  by eapply ws_head_lead.
Qed.

Lemma ws_head_plain c s : ws_lead c = false -> ws_head (String c s) = 0%nat.
Proof.
  intros Hc. destruct (ws_head (String c s)) eqn:E; [done|].
  rewrite (ws_head_lead c s) in Hc; [done | lia].
Qed.

Lemma strip_fuel (head : string -> nat) f1 f2 s :
  (forall r, head r <= String.length r)%nat ->
  (String.length s <= f1)%nat -> (String.length s <= f2)%nat ->
  strip head f1 s = strip head f2 s.
Proof.
  intros Hle. revert f2 s. induction f1 as [|f1 IH]; intros f2 s H1 H2.
  - pose proof (Hle s). destruct f2; cbn [strip]; [done|].
    by replace (head s) with 0%nat by lia.
  - destruct f2; cbn [strip].
    + pose proof (Hle s). by replace (head s) with 0%nat by lia.
    + destruct (head s) eqn:E; [done|].
      apply IH; rewrite length_dropS; lia.
Qed.

Lemma trimStart_plain s : ws_head s = 0%nat -> trimStart s = s.
Proof.
  intros H. unfold trimStart. destruct (String.length s); cbn [strip]; [done|].
  by rewrite H.
Qed.

Ltac ws_split :=
  repeat match goal with
         | |- context [if ?b then _ else _] =>
             let E := fresh "E" in
             destruct b eqn:E; simpl;
             repeat match goal with
                    | H : ?x = _ |- context [?x] => rewrite H
                    end
         end.

(** One white-space character is what [ws_head] counts, whatever follows. *)
Lemma ws_head_extend w x :
  (0 < ws_head w)%nat -> ws_head w = String.length w ->
  ws_head (w +:+ x) = String.length w.
Proof.
  destruct w as [|a [|b [|c [|d w]]]], x as [|e [|f x]];
    rewrite ?append_cons, ?append_nil_l, ?append_nil_r; simpl;
    try pose proof (ws2_not_ws1 a b);
    try pose proof (ws3_not_shorter a b c);
    try pose proof (ws2_not_ws1 a e);
    try pose proof (ws3_not_shorter a e f);
    try pose proof (ws3_not_shorter a b e);
    ws_split; intros; try lia; try done; exfalso; intuition congruence.
Qed.

Lemma trimStart_blank pad k :
  blank pad -> ws_head k = 0%nat -> trimStart (pad +:+ k) = k.
Proof.
  intros Hpad Hk. induction Hpad as [|w rest Hpos Hlen _ IH].
  - rewrite append_nil_l. by apply trimStart_plain.
  - rewrite append_assoc. unfold trimStart. rewrite length_append.
    pose proof (ws_head_extend w (rest +:+ k) Hpos Hlen) as Hex.
    destruct (String.length w) as [|n] eqn:Hw; [lia|].
    cbn [Nat.add strip]. rewrite Hex. rewrite <- Hw, dropS_append.
    rewrite (strip_fuel ws_head _ (String.length (rest +:+ k)));
      [apply IH | apply ws_head_le | lia | lia].
Qed.

Lemma trimEnd_split s : exists post, blank post /\ s = trimEnd s +:+ post.
Proof.
  destruct (strip_ws_last (String.length s) (String.rev s)) as (pre & Hpre & Hs).
  exists (String.rev pre). split; [done|]. unfold trimEnd.
  rewrite <- rev_append, <- Hs. symmetry. apply rev_involutive.
Qed.

(** A prefix with no byte that starts white space is not eaten from the
    end. *)
Lemma prefix_survives p t post r :
  Uri.every (fun c => negb (ws_lead c)) p = true -> blank post ->
  p +:+ r = t +:+ post -> startsWith t p = true.
Proof.
  intros Hp Hpost. revert t. induction p as [|a p IH]; intros t Heq; [done|].
  simpl in Hp. apply andb_true_iff in Hp as [Ha Hp].
  rewrite append_cons in Heq. destruct t as [|b t].
  - rewrite append_nil_l in Heq. subst post.
    apply blank_head in Hpost. rewrite Hpost in Ha. done.
  - rewrite append_cons in Heq. injection Heq as <- Heq.
    simpl. rewrite Ascii.eqb_refl. simpl. by apply IH.
Qed.

Lemma trim_keeps_prefix s p :
  ws_head s = 0%nat -> startsWith s p = true ->
  Uri.every (fun c => negb (ws_lead c)) p = true ->
  startsWith (trim s) p = true.
Proof.
  intros Hs Hstart Hp. unfold trim. rewrite trimStart_plain by done.
  destruct (trimEnd_split s) as (post & Hpost & Heq).
  apply startsWith_spec in Hstart as [r Hr].
  apply (prefix_survives p _ post r); [done | done | congruence].
Qed.

Lemma startsWith_lead c s a p :
  ws_lead c = true -> ws_lead a = false -> startsWith (String c s) (String a p) = false.
Proof.
  intros Hc Ha. cbn [startsWith].
  destruct (Ascii.eqb_spec a c) as [->|_]; [congruence | done].
Qed.

Lemma url_prefix_plain k :
  startsWith k "http://" = true \/ startsWith k "https://" = true ->
  ws_head k = 0%nat.
Proof.
  intros [H|H]; apply startsWith_spec in H as [r ->];
    rewrite append_cons; by apply ws_head_plain.
Qed.

Lemma isUrl_of_prefix s :
  ws_head s = 0%nat ->
  startsWith s "http://" = true \/ startsWith s "https://" = true ->
  startsWith (trim s) "http://" || startsWith (trim s) "https://" = true.
Proof.
  intros Hs [H|H].
  - rewrite (trim_keeps_prefix s "http://") by done. done.
  - rewrite (trim_keeps_prefix s "https://") by done. apply orb_true_r.
Qed.

(** X16.  Every keyword that [getRssUrl] uses as the feed address as it
    stands is shown with the RSS badge in the editor. *)
Theorem url_keyword_has_rss_badge keyword :
  startsWith keyword "http://" = true \/ startsWith keyword "https://" = true ->
  getRssUrl keyword = keyword /\ isUrl keyword = true.
Proof.
  intros H. split.
  - unfold getRssUrl. by destruct H as [-> | ->]; rewrite ?orb_true_r.
  - unfold isUrl. apply isUrl_of_prefix; [by apply url_prefix_plain | done].
Qed.

(** X17.  The badge and the address do not agree on a feed address typed
    after white space: the editor trims before it tests and shows the RSS
    badge, [getRssUrl] tests the text as typed and sends the whole of it,
    encoded, to the news search. *)
Theorem padded_url_badged_but_searched pad url :
  blank pad -> pad <> "" ->
  startsWith url "http://" = true \/ startsWith url "https://" = true ->
  isUrl (pad +:+ url) = true
  /\ getRssUrl (pad +:+ url)
     = "https://news.google.com/rss/search?q=" +:+ encodeURIComponent (pad +:+ url)
         +:+ "&hl=ja&gl=JP&ceid=JP:ja"
  /\ getRssUrl url = url.
Proof.
  intros Hpad Hne Hurl.
  pose proof (url_prefix_plain url Hurl) as Hplain.
  split; [|split].
  - unfold isUrl, trim. rewrite trimStart_blank by done.
    pose proof (isUrl_of_prefix url Hplain Hurl) as H.
    unfold trim in H. by rewrite trimStart_plain in H.
  - destruct pad as [|c pad]; [done|].
    apply blank_head in Hpad. unfold getRssUrl.
    rewrite append_cons, !(startsWith_lead c) by done. done.
  - unfold getRssUrl. by destruct Hurl as [-> | ->]; rewrite ?orb_true_r.
Qed.
End Badge.

(** X16 on the feed of the fourth default tab. *)
Lemma url_keyword_has_rss_badge_witness :
  Js.startsWith "https://www.gizmodo.jp/index.xml" "https://" = true
  /\ Editing.isUrl "https://www.gizmodo.jp/index.xml" = true.
Proof.
  split; [reflexivity|].
  exact (proj2 (url_keyword_has_rss_badge "https://www.gizmodo.jp/index.xml"
                  (or_intror eq_refl))).
Defined.

(** X17 on the same feed typed after a blank. *)
Lemma padded_url_badged_but_searched_witness :
  Js.blank " " /\ " " <> ""
  /\ Js.startsWith "https://www.gizmodo.jp/index.xml" "https://" = true
  /\ Editing.isUrl " https://www.gizmodo.jp/index.xml" = true
  /\ getRssUrl " https://www.gizmodo.jp/index.xml"
     = "https://news.google.com/rss/search?q=%20https%3A%2F%2Fwww.gizmodo.jp%2Findex.xml&hl=ja&gl=JP&ceid=JP:ja".
Proof.
  assert (Js.blank " ") as Hb.
  { change " " with (" " +:+ ""). constructor;
      [simpl; lia | reflexivity | constructor]. }
  split; [exact Hb|]. split; [discriminate|]. split; [reflexivity|].
  destruct (padded_url_badged_but_searched " " "https://www.gizmodo.jp/index.xml"
              Hb ltac:(discriminate) (or_intror eq_refl)) as (H1 & H2 & _).
  split; [exact H1|]. etrans; [exact H2 | reflexivity].
Defined.

(** ** The article cards and the hidden sources *)

Section Cards.

(** X1.  The age of a card: it is new while the article is less than two
    whole days away from the clock, in either direction, and old from
    seven whole days on; an article whose date does not parse is neither,
    and no article is both. *)
Theorem card_age_thresholds (now : Z) :
  (forall t, Card.isNew now (Some t) = true <-> Z.abs (now - t) < 2 * Card.MS_PER_DAY)
  /\ (forall t, Card.isOld now (Some t) = true <-> 7 * Card.MS_PER_DAY <= Z.abs (now - t))
  /\ Card.isNew now None = false
  /\ Card.isOld now None = false
  /\ (forall pubTime, Card.isNew now pubTime && Card.isOld now pubTime = false).
Proof.
  assert (0 < Card.MS_PER_DAY) as Hday by done.
  assert (forall t, Z.abs (now - t)
            = Card.MS_PER_DAY * (Z.abs (now - t) / Card.MS_PER_DAY)
              + Z.abs (now - t) mod Card.MS_PER_DAY
            /\ 0 <= Z.abs (now - t) mod Card.MS_PER_DAY < Card.MS_PER_DAY) as Hdiv.
  { intros t. split; [apply Z.div_mod; lia | apply Z.mod_pos_bound; lia]. }
  split; [|split; [|split; [|split]]]; try done.
  - intros t. unfold Card.isNew, Card.diffDays. rewrite Z.leb_le.
    destruct (Hdiv t) as [Heq Hmod]. nia.
  - intros t. unfold Card.isOld, Card.diffDays. rewrite Z.geb_le.
    destruct (Hdiv t) as [Heq Hmod]. nia.
  - intros [t|]; [|done]. unfold Card.isNew, Card.isOld, Card.diffDays.
    apply andb_false_iff.
    destruct (Z.leb_spec (Z.abs (now - t) / Card.MS_PER_DAY) 1); [right|left; done].
    rewrite Z.geb_leb. apply Z.leb_gt. lia.
Qed.

(** X2.  A click on a card.  On the card of a hidden source it changes
    nothing.  On any other card it puts the article among the read ones,
    after which the card shows no NEW badge and its title is dimmed
    whatever the date, and the grid stays as it was. *)
Theorem open_article_marks_card (article : Article.t) (now clock : Z)
    (pubTime : option Z) (st : App) :
  let st' := stateOf (act (OpenArticle article) now st) in
  let isRead := bool_decide (Article.id article ∈ readIds st') in
  let isHidden := bool_decide (Article.source article ∈ hiddenSources st') in
  if bool_decide (Article.source article ∈ hiddenSources st) then st' = st
  else isRead = true
       /\ Card.showsNew clock pubTime isRead isHidden = false
       /\ Card.dimmed clock pubTime isRead isHidden = true
       /\ visibleNews st' = visibleNews st.
Proof.
  cbn [act]. case_bool_decide as Hhidden; [done|]. cbn [stateOf].
  assert (bool_decide (Article.id article ∈ readIds (markAsRead (Article.id article) st)) = true)
    as ->.
  { apply bool_decide_eq_true. simpl. apply elem_of_union_r, elem_of_singleton. done. }
  unfold Card.showsNew, Card.dimmed.
  rewrite andb_false_r. done.
Qed.

(** X3.  Hiding a source takes its articles, and only them, out of the
    grid; while the hidden articles are shown the grid is the whole list
    as before. *)
Theorem hide_source_filters_grid (source : string) (st : App) :
  visibleNews (hideSource source st) =
    if showHiddenArticles st then newsList st
    else filter (fun a => Article.source a <> source) (visibleNews st).
Proof.
  unfold visibleNews. simpl. destruct (showHiddenArticles st); [done|].
  rewrite list_filter_filter. apply list_filter_iff. intros a.
  rewrite not_elem_of_union, not_elem_of_singleton. tauto.
Qed.

(** X4.  Hiding a source that was not hidden and showing it again gives
    the state back, and the grid with it. *)
Theorem hide_then_unhide (source : string) (st : App) :
  source ∉ hiddenSources st ->
  unhideSource source (hideSource source st) = st
  /\ visibleNews (unhideSource source (hideSource source st)) = visibleNews st.
Proof.
  intros Hnew.
  assert (unhideSource source (hideSource source st) = st) as ->; [|done].
  destruct st. unfold unhideSource, hideSource, setHiddenSources. simpl in *.
  f_equal. apply set_eq. intros x.
  rewrite elem_of_difference, elem_of_union, elem_of_singleton.
  destruct (decide (x = source)) as [->|]; tauto.
Qed.

(** X5.  The grid is always taken from the list of the tab in its order,
    and after the hidden sources are reset it is the whole list. *)
Theorem reset_shows_every_article (st : App) :
  sublist (visibleNews st) (newsList st)
  /\ visibleNews (resetHiddenSources st) = newsList st.
Proof.
  split.
  - unfold visibleNews. destruct (showHiddenArticles st); [done|].
    apply sublist_filter.
  - unfold visibleNews. simpl. induction (newsList st) as [|a l IH]; [done|].
    rewrite filter_cons_True by apply not_elem_of_empty. by rewrite IH.
Qed.

End Cards.

(** X4 on the state with nothing hidden. *)
Lemma hide_then_unhide_witness :
  ("Example Times" ∉ hiddenSources Sample.appOnSecond)
  /\ unhideSource "Example Times" (hideSource "Example Times" Sample.appOnSecond)
     = Sample.appOnSecond.
Proof.
  assert ("Example Times" ∉ hiddenSources Sample.appOnSecond) as H.
  { simpl. apply not_elem_of_empty. }
  split; [exact H|].
  exact (proj1 (hide_then_unhide "Example Times" Sample.appOnSecond H)).
Defined.

(** ** The refresh buttons, a whole fetch, and a response that comes late *)

Section Fetches.
Context (dateParse : string -> option Z)
        (toISOString : Z -> string)
        (toLocaleDateString : Z -> string)
        (firstImgSrc : string -> option string).

Lemma mapItems_category tabId feed_title index items mapped :
  mapItems dateParse toISOString toLocaleDateString firstImgSrc tabId feed_title index items = Some mapped ->
  Forall (fun a => Article.category a = tabId) mapped.
Proof.
  revert index mapped. induction items as [|item rest IH]; intros index mapped H.
  - injection H as <-. constructor.
  - cbn [mapItems] in H.
    destruct (mapItem dateParse toISOString toLocaleDateString firstImgSrc tabId feed_title index item) as [a|] eqn:Ha; [|done].
    destruct (mapItems dateParse toISOString toLocaleDateString firstImgSrc tabId feed_title (S index) rest) as [l|] eqn:Hl; [|done].
    injection H as <-. apply List.Forall_cons; [|by eapply IH].
    unfold mapItem in Ha.
    destruct (titleAndSource feed_title item) as [[title source]|]; [|done].
    destruct (dateParse (Item.pubDate item)); [|done].
    by injection Ha as <-.
Qed.

(** what the [try] block hands to the cache: at most twelve articles, all
    of the tab that was fetched *)
Lemma tryBlock_shape tabId response mapped :
  tryBlock dateParse toISOString toLocaleDateString firstImgSrc tabId response = Some mapped ->
  (length mapped <= 12)%nat /\ Forall (fun a => Article.category a = tabId) mapped.
Proof.
  unfold tryBlock. destruct response as [| | |d]; try done.
  destruct (String.eqb (Api.status d) "ok"); [|done].
  destruct (mapItems dateParse toISOString toLocaleDateString firstImgSrc tabId (Api.feed_title d) 0 (Api.items d)) as [l|] eqn:Hl; [|done].
  intros H. assert (mapped = take 12 (sort (compareFn dateParse) l)) as ->
    by (unfold slice0 in H; congruence).
  split.
  - rewrite length_take. lia.
  - apply Forall_take. rewrite sort_perm. by eapply mapItems_category.
Qed.

Lemma act_cache action now st tabId :
  newsCache st !! tabId = None ->
  newsCache (stateOf (act action now st)) !! tabId = None.
Proof.
  intros Hnone. destruct action; cbn [act]; try done.
  - destruct (String.eqb tabId0 (activeTabId st)); [done|].
    by destruct (fetchNews_begin_frame tabId0 (tabs st) now (setActiveTabId tabId0 st))
      as (-> & _).
  - by case_bool_decide.
  - unfold handleSaveSettings.
    match goal with
    | |- newsCache (stateOf match fetchNews_begin ?t ?c ?n ?s with _ => _ end) !! _ = _ =>
        pose proof (fetchNews_begin_frame t c n s) as (Hcache & _);
        destruct (fetchNews_begin t c n s)
    end; simpl in *; rewrite Hcache; apply lookup_empty.
  - unfold forceRefresh.
    match goal with
    | |- newsCache (stateOf (fetchNews_begin ?t ?c ?n ?s)) !! _ = _ =>
        destruct (fetchNews_begin_frame t c n s) as (-> & _)
    end.
    simpl. apply lookup_delete_None. by right.
Qed.

Lemma happen_stores_nothing tabId e st :
  storesNothingUnder dateParse toISOString toLocaleDateString firstImgSrc tabId e ->
  newsCache st !! tabId = None ->
  newsCache (happen dateParse toISOString toLocaleDateString firstImgSrc e st) !! tabId = None.
Proof.
  intros He Hnone. destruct e as [action now|t response now]; cbn [happen].
  - by apply act_cache.
  - cbn [storesNothingUnder] in He. unfold fetchNews_resume.
    destruct (tryBlock dateParse toISOString toLocaleDateString firstImgSrc t response) as [mapped|] eqn:Htry.
    + simpl. rewrite lookup_insert_ne; [done|]. intros Heq. by specialize (He Heq).
    + by destruct (newsCache st !! t).
Qed.

Lemma happenAll_stores_nothing tabId events st :
  Forall (storesNothingUnder dateParse toISOString toLocaleDateString firstImgSrc tabId) events ->
  newsCache st !! tabId = None ->
  newsCache (happenAll dateParse toISOString toLocaleDateString firstImgSrc events st) !! tabId = None.
Proof.
  intros Hall. revert st. induction Hall as [|e events He _ IH]; intros st Hnone; [done|].
  cbn [happenAll foldl]. apply IH. by apply happen_stores_nothing.
Qed.

(** X6.  The refresh buttons always go to the network when the active tab
    is configured, however fresh its cached entry is, and the entry is
    deleted first.  So when the active tab id is no name of an inherited
    member of the cache object, and nothing that happens before the answer
    is processed stores an entry for that tab again (no other answer for
    it is taken to the end), a forced refresh that fails has nothing to
    fall back on: the list stays as it is then, the failure message is set
    and the error panel is what shows. *)
Theorem forced_refresh_has_no_fallback (now : Z) (st : App) (tab : Tab.t) :
  inheritedName (activeTabId st) = false ->
  find (fun t => String.eqb (Tab.id t) (activeTabId st)) (tabs st) = Some tab ->
  exists waiting,
    forceRefresh now st = Awaiting waiting (apiUrl (getRssUrl (Tab.keyword tab)))
    /\ newsCache waiting = delete (activeTabId st) (newsCache st)
    /\ forall events response later,
         Forall settlesOwn events ->
         Forall (storesNothingUnder dateParse toISOString toLocaleDateString firstImgSrc (activeTabId st)) events ->
         tryBlock dateParse toISOString toLocaleDateString firstImgSrc (activeTabId st) response = None ->
         let before := happenAll dateParse toISOString toLocaleDateString firstImgSrc events waiting in
         let st' := fetchNews_resume dateParse toISOString toLocaleDateString firstImgSrc (activeTabId st) response later before in
         newsList st' = newsList before
         /\ error st' = Some FAILURE_MESSAGE
         /\ render st' = ErrorPanel FAILURE_MESSAGE.
Proof.
  intros _ Hfind. unfold forceRefresh, fetchNews_begin.
  cbn [activeTabId tabs newsCache setNewsCache setError setLoading].
  rewrite Hfind, lookup_delete_eq.
  eexists. split; [reflexivity|]. split; [reflexivity|].
  intros events response later _ Hevents Hfail. cbn zeta.
  match goal with
  | |- context [happenAll dateParse toISOString toLocaleDateString firstImgSrc events ?w] =>
      pose proof (happenAll_stores_nothing (activeTabId st) events w Hevents) as Hnone;
      set (before := happenAll dateParse toISOString toLocaleDateString firstImgSrc events w) in *
  end.
  cbn [newsCache setNewsCache setError setLoading] in Hnone.
  specialize (Hnone (lookup_delete_eq _ _)).
  pose proof (failure_fallback_state dateParse toISOString toLocaleDateString firstImgSrc _ _ later before Hfail) as Hstate.
  pose proof (render_after_failure dateParse toISOString toLocaleDateString firstImgSrc _ _ later before Hfail) as Hrender.
  rewrite Hnone in Hstate, Hrender.
  destruct Hstate as (_ & Hlist & Herr). done.
Qed.

(** X7.  A whole call of [fetchNews], whatever the network answers: the
    spinner is off when it ends, it has sent one request or none, an error
    is only set after a request and is one of the two messages, and no
    cached entry but the one of the tab fetched is touched. *)
Theorem fetchNews_outcome (network : string -> Response) (tabId : string)
    (currentTabs : list Tab.t) (now later : Z) (st : App) :
  let st' := (fetchNews dateParse toISOString toLocaleDateString firstImgSrc network tabId currentTabs now later st).1 in
  let requests := (fetchNews dateParse toISOString toLocaleDateString firstImgSrc network tabId currentTabs now later st).2 in
  loading st' = false
  /\ (length requests <= 1)%nat
  /\ (error st' = None
      \/ requests <> []
         /\ (error st' = Some STALE_MESSAGE \/ error st' = Some FAILURE_MESSAGE))
  /\ (requests = [] -> newsCache st' = newsCache st)
  /\ (forall other, other <> tabId -> newsCache st' !! other = newsCache st !! other).
Proof.
  unfold fetchNews, fetchNews_begin.
  destruct (find _ currentTabs) as [activeTab|]; [|simpl; auto 10].
  cbn [newsCache setError setLoading].
  assert (forall request,
    let st' := fetchNews_resume dateParse toISOString toLocaleDateString firstImgSrc tabId (network request) later
                 (setError None (setLoading true st)) in
    loading st' = false
    /\ (error st' = None
        \/ [request] <> []
           /\ (error st' = Some STALE_MESSAGE \/ error st' = Some FAILURE_MESSAGE))
    /\ (forall other, other <> tabId -> newsCache st' !! other = newsCache st !! other))
    as Hresume.
  { intros request. unfold fetchNews_resume.
    destruct (tryBlock dateParse toISOString toLocaleDateString firstImgSrc tabId (network request)) as [mapped|].
    - simpl. split; [done|]. split; [by left|].
      intros other Hother. by rewrite lookup_insert_ne.
    - simpl. destruct (newsCache st !! tabId); simpl; auto 10. }
  destruct (newsCache st !! tabId) as [cached|].
  - destruct (now - timestamp cached <? CACHE_DURATION).
    + simpl. auto 10.
    + cbn [fst snd length]. destruct (Hresume (apiUrl (getRssUrl (Tab.keyword activeTab))))
        as (H1 & H2 & H3). split; [done|]. split; [lia|]. done.
  - cbn [fst snd length]. destruct (Hresume (apiUrl (getRssUrl (Tab.keyword activeTab))))
      as (H1 & H2 & H3). split; [done|]. split; [lia|]. done.
Qed.

(** X8.  A response that is processed takes the list on the screen
    whatever tab is active by then: the state does not remember which tab
    the list belongs to, so the answer for a tab the user has left replaces
    the list of the tab the user is on, with articles all of the tab that
    was fetched. *)
Theorem settled_response_takes_the_list (tabId : string) (response : Response)
    (later : Z) (st : App) (mapped : list Article.t) :
  tryBlock dateParse toISOString toLocaleDateString firstImgSrc tabId response = Some mapped ->
  let st' := fetchNews_resume dateParse toISOString toLocaleDateString firstImgSrc tabId response later st in
  newsList st' = mapped
  /\ activeTabId st' = activeTabId st
  /\ Forall (fun a => Article.category a = tabId) (newsList st')
  /\ newsCache st' !! tabId = Some (mkEntry mapped later)
  /\ error st' = error st /\ loading st' = false.
Proof.
  intros Htry. unfold fetchNews_resume. rewrite Htry. simpl.
  rewrite lookup_insert_eq. split_and!; try done.
  by apply (tryBlock_shape tabId response).
Qed.

End Fetches.

(** X6 on the first tab, whose entry is one minute old; the user looks at
    the second tab, whose answer arrives, before the refresh fails. *)
Lemma forced_refresh_has_no_fallback_witness :
  inheritedName (activeTabId Sample.app) = false
  /\ exists waiting,
       forceRefresh Sample.NOON Sample.app
       = Awaiting waiting (apiUrl (getRssUrl "バス 減便"))
       /\ render (fetchNews_resume Browser.dateParse Browser.toISOString Browser.toLocaleDateString Browser.firstImgSrc "tab-1" NetworkFailure Sample.LATER
                    (happenAll Browser.dateParse Browser.toISOString Browser.toLocaleDateString Browser.firstImgSrc
                       [User (SwitchTab "tab-2") Sample.NOON;
                        Settles "tab-2" (Body Sample.feed) Sample.NOON]
                       waiting))
          = ErrorPanel FAILURE_MESSAGE.
Proof.
  assert (inheritedName (activeTabId Sample.app) = false) as Hown by reflexivity.
  split; [exact Hown|].
  destruct (forced_refresh_has_no_fallback Browser.dateParse Browser.toISOString Browser.toLocaleDateString Browser.firstImgSrc Sample.NOON Sample.app
              (Tab.mk "tab-1" "バス減便" "fa-bus" "バス 減便") Hown eq_refl)
    as (waiting & Hrequest & _ & Hfail).
  exists waiting. split; [exact Hrequest|].
  refine (proj2 (proj2 (Hfail _ NetworkFailure Sample.LATER _ _ eq_refl))).
  - repeat (apply List.Forall_cons; [first [exact I | reflexivity]|]).
    apply List.Forall_nil.
  - repeat (apply List.Forall_cons; [first [exact I | (intros Heq; discriminate Heq)]|]).
    apply List.Forall_nil.
Defined.

(** With an answer for the same tab taken to the end in between, the entry
    is there again and the failed refresh does fall back on it. *)
Example forced_refresh_after_late_answer :
  let st := happenAll Browser.dateParse Browser.toISOString Browser.toLocaleDateString Browser.firstImgSrc
              [User Refresh Sample.NOON;
               Settles "tab-1" (Body Sample.feed) Sample.NOON;
               Settles "tab-1" HttpError Sample.LATER]
              Sample.app in
  error st = Some STALE_MESSAGE /\ length (newsList st) = 12%nat.
Proof. vm_compute. split; reflexivity. Qed.

(** X8: the answer for the first tab arrives while the second is active. *)
Lemma settled_response_takes_the_list_witness :
  let st' := fetchNews_resume Browser.dateParse Browser.toISOString Browser.toLocaleDateString Browser.firstImgSrc "tab-1" (Body Sample.feed) Sample.NOON Sample.appOnSecond in
  activeTabId st' = "tab-2"
  /\ Forall (fun a => Article.category a = "tab-1") (newsList st').
Proof.
  intros st'.
  destruct (tryBlock Browser.dateParse Browser.toISOString Browser.toLocaleDateString Browser.firstImgSrc "tab-1" (Body Sample.feed)) as [mapped|] eqn:Htry;
    [|vm_compute in Htry; discriminate].
  destruct (settled_response_takes_the_list Browser.dateParse Browser.toISOString Browser.toLocaleDateString Browser.firstImgSrc "tab-1" (Body Sample.feed) Sample.NOON
              Sample.appOnSecond mapped Htry) as (_ & Hactive & Hcategory & _).
  split; [exact Hactive | exact Hcategory].
Defined.

(** ** What every state of [App] keeps *)

Section Invariant.
Context (dateParse : string -> option Z)
        (toISOString : Z -> string)
        (toLocaleDateString : Z -> string)
        (firstImgSrc : string -> option string).

Lemma list_ok_nil : list_ok [].
Proof. split; [simpl; lia | exists ""; constructor]. Qed.

Lemma cache_ok_list cache tabId entry :
  cache_ok cache -> cache !! tabId = Some entry -> list_ok (data entry).
Proof. intros Hok Hin. destruct (Hok _ _ Hin). split; [done | by exists tabId]. Qed.

Lemma fetchNews_begin_ok tabId currentTabs now st :
  app_ok st -> app_ok (stateOf (fetchNews_begin tabId currentTabs now st)).
Proof.
  intros [Hcache Hlist]. unfold fetchNews_begin.
  destruct (find _ currentTabs); [|done].
  cbn [newsCache setError setLoading].
  destruct (newsCache st !! tabId) as [cached|] eqn:Hin; [|done].
  destruct (now - timestamp cached <? CACHE_DURATION); [|done].
  split; [done|]. by apply (cache_ok_list (newsCache st) tabId).
Qed.

Lemma fetchNews_resume_ok tabId response now st :
  app_ok st -> app_ok (fetchNews_resume dateParse toISOString toLocaleDateString firstImgSrc tabId response now st).
Proof.
  intros [Hcache Hlist]. unfold fetchNews_resume.
  destruct (tryBlock dateParse toISOString toLocaleDateString firstImgSrc tabId response) as [mapped|] eqn:Htry.
  - apply tryBlock_shape in Htry as [Hlen Hcat]. split.
    + intros k entry. cbn [newsCache setNewsCache setNewsList setLoading].
      rewrite lookup_insert_Some. intros [[<- <-]|[_ Hin]]; [done | by apply Hcache].
    + split; [done | by exists tabId].
  - destruct (newsCache st !! tabId) as [cached|] eqn:Hin; [|done].
    split; [done|]. by apply (cache_ok_list (newsCache st) tabId).
Qed.

Lemma happen_ok e st :
  app_ok st -> app_ok (happen dateParse toISOString toLocaleDateString firstImgSrc e st).
Proof.
  intros Hok. destruct e as [action now|tabId response now];
    [|by apply fetchNews_resume_ok].
  cbn [happen]. destruct action; cbn [act]; try done.
  - destruct (String.eqb tabId (activeTabId st)); [done|].
    by apply fetchNews_begin_ok.
  - by case_bool_decide.
  - unfold handleSaveSettings.
    match goal with
    | |- app_ok (stateOf match fetchNews_begin ?t ?c ?n ?s with _ => _ end) =>
        pose proof (fetchNews_begin_ok t c n s) as Hbegin;
        destruct (fetchNews_begin t c n s)
    end; apply Hbegin; (split; [intros k entry; simpl; by rewrite lookup_empty | apply list_ok_nil]).
  - unfold forceRefresh. apply fetchNews_begin_ok. destruct Hok as [Hcache Hlist].
    split; [|done]. intros k entry. cbn [newsCache setNewsCache].
    rewrite lookup_delete_Some. intros [_ Hin]. by apply Hcache.
Qed.

(** X9.  Whatever the user does and whatever answers arrive, in any
    order, as long as no answer is for a tab id that names an inherited
    member of the cache object: every entry of the cache holds at most
    twelve articles, all of the tab it is stored under, and the list on
    the screen is at most twelve articles of one tab. *)
Theorem events_keep_app_ok (events : list Event) (st : App) :
  Forall settlesOwn events ->
  app_ok st -> app_ok (happenAll dateParse toISOString toLocaleDateString firstImgSrc events st).
Proof.
  intros _. revert st. induction events as [|e events IH]; intros st Hok; [done|].
  cbn [happenAll foldl]. apply IH. by apply happen_ok.
Qed.

(** X10.  Saving a list of tabs that no longer has the active tab: no
    request goes out, the list and the cache are empty, no error is set,
    and the header has no label to show; the main area is the empty grid
    until the user picks a tab. *)
Theorem save_without_active_tab (newTabs : list Tab.t) (newMaxTabs now : Z)
    (st : App) :
  find (fun t => String.eqb (Tab.id t) (activeTabId st)) newTabs = None ->
  exists st',
    act (SaveSettings newTabs newMaxTabs) now st = Returned st'
    /\ activeTabId st' = activeTabId st
    /\ newsList st' = [] /\ newsCache st' = ∅
    /\ loading st' = false /\ error st' = None
    /\ activeTabLabel st' = ""
    /\ render st' = ArticleGrid [].
Proof.
  intros Hfind. cbn [act]. unfold handleSaveSettings, fetchNews_begin.
  cbn [activeTabId tabs newsCache setNewsCache setNewsList setMaxTabs setTabs
       setError setLoading].
  rewrite Hfind. eexists. split; [reflexivity|].
  unfold activeTabLabel, render, visibleNews. simpl. rewrite Hfind.
  split_and!; try done. by destruct (showHiddenArticles st).
Qed.

End Invariant.

(** X9 on a forced refresh, its answer, and a change of tab. *)
Lemma events_keep_app_ok_witness :
  app_ok Sample.appOnSecond
  /\ app_ok (happenAll Browser.dateParse Browser.toISOString Browser.toLocaleDateString Browser.firstImgSrc
               [User Refresh Sample.NOON;
                Settles "tab-2" (Body Sample.feed) Sample.NOON;
                User (SwitchTab "tab-1") Sample.LATER]
               Sample.appOnSecond).
Proof.
  assert (app_ok Sample.appOnSecond) as Hok.
  { split.
    - intros k entry H. simpl in H. rewrite lookup_empty in H. discriminate.
    - split; [simpl; lia|]. exists "tab-1". repeat constructor. }
  split; [exact Hok|].
  refine (events_keep_app_ok Browser.dateParse Browser.toISOString Browser.toLocaleDateString Browser.firstImgSrc _ Sample.appOnSecond _ Hok).
  repeat (apply List.Forall_cons; [first [exact I | reflexivity]|]).
  apply List.Forall_nil.
Defined.

(** X10: the first tab, which is the active one, is deleted in the editor
    and the rest is saved. *)
Lemma save_without_active_tab_witness :
  let saved := Modal.handleSave
                 (Modal.handleDeleteTab 0
                    (Modal.open (tabs Sample.app) (maxTabs Sample.app) Sample.editor)) in
  find (fun t => String.eqb (Tab.id t) (activeTabId Sample.app)) saved.1 = None
  /\ exists st',
       act (SaveSettings saved.1 saved.2) Sample.NOON Sample.app = Returned st'
       /\ render st' = ArticleGrid [].
Proof.
  intros saved.
  assert (find (fun t => String.eqb (Tab.id t) (activeTabId Sample.app)) saved.1 = None)
    as Hgone by reflexivity.
  split; [exact Hgone|].
  destruct (save_without_active_tab saved.1 saved.2 Sample.NOON Sample.app Hgone)
    as (st' & Hact & H).
  exists st'. split; [exact Hact|]. apply H.
Defined.

(** ** Numbers written out and read back: the article ids and the stored maximum *)

Section Numerals.
Import JsNumber.

Lemma digit_of_char n : (n < 10)%N -> digit 10 (pretty_N_char n) = Some (Z.of_N n).
Proof.
  intros Hn. destruct n as [|p]; [reflexivity|].
  do 4 (destruct p as [p|p|]; try reflexivity; try lia).
Qed.

Lemma digits_append acc d r :
  digitsOnly d = true -> digits 10 acc (d +:+ r) = digits 10 (digits 10 acc d) r.
Proof.
  revert acc. induction d as [|c d IH]; intros acc Hd; [by rewrite append_nil_l|].
  cbn [digitsOnly] in Hd. apply andb_true_iff in Hd as [Hc Hd].
  apply bool_decide_eq_true in Hc as [v Hv].
  rewrite append_cons. cbn [digits]. rewrite Hv. by apply IH.
Qed.

Lemma digitsOnly_append d1 d2 :
  digitsOnly (d1 +:+ d2) = digitsOnly d1 && digitsOnly d2.
Proof.
  induction d1 as [|c d1 IH]; [by rewrite append_nil_l|].
  rewrite append_cons. cbn [digitsOnly]. by rewrite IH, andb_assoc.
Qed.

(** the digits [pretty] writes, read back by [parseInt] *)
Lemma pretty_N_go_digits x s :
  exists d, pretty_N_go x s = d +:+ s
            /\ digitsOnly d = true
            /\ digits 10 None d = (if decide (x = 0)%N then None else Some (Z.of_N x)).
Proof.
  revert s. induction (N.lt_wf_0 x) as [x _ IH]; intros s.
  destruct (decide (x = 0)%N) as [->|Hx].
  { exists "". rewrite pretty_N_go_0, append_nil_l. done. }
  rewrite pretty_N_go_step by lia.
  destruct (IH (x `div` 10)%N ltac:(apply N.div_lt; lia)
              (String (pretty_N_char (x `mod` 10)) s)) as (d & -> & Hd & Hval).
  assert (x `mod` 10 < 10)%N as Hmod by (apply N.mod_lt; lia).
  exists (d +:+ String (pretty_N_char (x `mod` 10)) "").
  split; [by rewrite append_assoc, append_cons, append_nil_l|].
  split.
  - rewrite digitsOnly_append, Hd. cbn [digitsOnly andb].
    rewrite digit_of_char by done. done.
  - rewrite digits_append by done. cbn [digits].
    rewrite digit_of_char by done. f_equal.
    pose proof (N.div_mod x 10 ltac:(lia)) as Hdiv.
    rewrite Hval. destruct (decide (x `div` 10 = 0)%N) as [H0|_]; simpl; lia.
Qed.

Lemma pretty_N_digits (x : N) : digitsOnly (pretty x) = true.
Proof.
  unfold pretty, pretty_N. destruct (decide (x = 0)%N); [done|].
  destruct (pretty_N_go_digits x "") as (d & -> & Hd & _). by rewrite append_nil_r.
Qed.

Lemma pretty_pos_digits (p : positive) :
  exists c d, pretty (N.pos p) = String c d
              /\ is_Some (digit 10 c)
              /\ digits 10 None (String c d) = Some (Z.pos p).
Proof.
  unfold pretty, pretty_N. destruct (decide (N.pos p = 0)%N); [done|].
  destruct (pretty_N_go_digits (N.pos p) "") as (d & -> & Hd & Hval).
  rewrite append_nil_r. destruct (decide (N.pos p = 0)%N); [done|].
  destruct d as [|c d]; [done|]. exists c, d. split; [done|]. split; [|done].
  cbn [digitsOnly] in Hd. apply andb_true_iff in Hd as [Hc _].
  by apply bool_decide_eq_true in Hc.
Qed.

(** a decimal digit starts no white space and is no sign *)
Lemma digit_plain c :
  is_Some (digit 10 c) -> ws_lead c = false /\ c <> "-"%char /\ c <> "+"%char.
Proof.
  intros [v Hv]. revert Hv.
  destruct c as [[] [] [] [] [] [] [] []]; vm_compute; intros Hv;
    try discriminate Hv; done.
Qed.

Lemma digits_dash_inj d1 d2 r1 r2 :
  digitsOnly d1 = true -> digitsOnly d2 = true ->
  d1 +:+ "-" +:+ r1 = d2 +:+ "-" +:+ r2 -> d1 = d2.
Proof.
  assert (forall c d, digitsOnly (String c d) = true -> c <> "-"%char) as Hdash.
  { intros c d Hd. cbn [digitsOnly] in Hd. apply andb_true_iff in Hd as [Hc _].
    apply bool_decide_eq_true in Hc. by apply digit_plain in Hc as (_ & ? & _). }
  revert d2. induction d1 as [|c d1 IH]; intros [|c2 d2] H1 H2 Heq;
    rewrite ?append_nil_l, ?append_cons in Heq.
  - done.
  - injection Heq as Hc _. by destruct (Hdash c2 d2 H2).
  - injection Heq as Hc _. by destruct (Hdash c d1 H1).
  - injection Heq as <- Heq. f_equal.
    cbn [digitsOnly] in H1, H2.
    apply andb_true_iff in H1 as [_ H1]. apply andb_true_iff in H2 as [_ H2].
    by apply IH.
Qed.

Lemma append_cancel_l p a b : p +:+ a = p +:+ b -> a = b.
Proof.
  induction p as [|c p IH]; [by rewrite !append_nil_l|].
  rewrite !append_cons. intros [= H]. by apply IH.
Qed.

Lemma append_cancel_r s a b : a +:+ s = b +:+ s -> a = b.
Proof.
  intros H. apply (f_equal String.rev) in H. rewrite !rev_append in H.
  apply append_cancel_l in H.
  by rewrite <- (rev_involutive a), <- (rev_involutive b), H.
Qed.

End Numerals.

Section Identifiers.
Context (dateParse : string -> option Z)
        (toISOString : Z -> string)
        (toLocaleDateString : Z -> string)
        (firstImgSrc : string -> option string).

(** the ids of the articles made from items with no guid carry the index
    of the item *)
Lemma mapItems_ids tabId feed_title index items mapped :
  mapItems dateParse toISOString toLocaleDateString firstImgSrc tabId feed_title index items = Some mapped ->
  Forall (fun item => Js.truthy (Item.guid item) = false) items ->
  Forall (fun id => exists n pubDate,
            (index <= n)%nat /\ id = tabId +:+ "-" +:+ pretty n +:+ "-" +:+ pubDate)
    (Article.id <$> mapped).
Proof.
  revert index mapped. induction items as [|item rest IH];
    intros index mapped Hmap Hguid.
  - injection Hmap as <-. constructor.
  - cbn [mapItems] in Hmap.
    destruct (mapItem dateParse toISOString toLocaleDateString firstImgSrc tabId feed_title index item) as [a|] eqn:Ha; [|done].
    destruct (mapItems dateParse toISOString toLocaleDateString firstImgSrc tabId feed_title (S index) rest) as [l|] eqn:Hl; [|done].
    injection Hmap as <-. apply List.Forall_cons_iff in Hguid as [Hitem Hrest].
    rewrite fmap_cons. apply List.Forall_cons.
    + exists index, (Item.pubDate item). split; [lia|].
      unfold mapItem in Ha.
      destruct (titleAndSource feed_title item) as [[title source]|]; [|done].
      destruct (dateParse (Item.pubDate item)); [|done].
      injection Ha as <-. cbn [Article.id].
      by destruct (Item.guid item) as [[|c g]|].
    + eapply Forall_impl; [by apply (IH (S index))|].
      intros id (n & pubDate & Hn & ->). exists n, pubDate. split; [lia | done].
Qed.

(** X18.  When no item of the answer has a guid, the ids the callback
    makes up from the tab, the index and the date are pairwise distinct,
    so no two cards of the grid share a key. *)
Theorem synthesized_ids_distinct (tabId : string) (feed_title : option string)
    (items : list Item.t) (mapped : list Article.t) :
  mapItems dateParse toISOString toLocaleDateString firstImgSrc tabId feed_title 0 items = Some mapped ->
  Forall (fun item => Js.truthy (Item.guid item) = false) items ->
  NoDup (Article.id <$> mapped).
Proof.
  generalize 0%nat as index. revert mapped.
  induction items as [|item rest IH]; intros mapped index Hmap Hguid.
  - injection Hmap as <-. constructor.
  - pose proof (mapItems_ids _ _ _ _ _ Hmap Hguid) as Hids.
    cbn [mapItems] in Hmap.
    destruct (mapItem dateParse toISOString toLocaleDateString firstImgSrc tabId feed_title index item) as [a|] eqn:Ha; [|done].
    destruct (mapItems dateParse toISOString toLocaleDateString firstImgSrc tabId feed_title (S index) rest) as [l|] eqn:Hl; [|done].
    injection Hmap as <-. apply List.Forall_cons_iff in Hguid as [Hitem Hrest].
    rewrite fmap_cons. apply NoDup_cons. split; [|by apply (IH l (S index))].
    pose proof (mapItems_ids _ _ _ _ _ Hl Hrest) as Hlater.
    intros Hin. rewrite Forall_forall in Hlater.
    destruct (Hlater _ Hin) as (n & pubDate & Hn & Hid).
    unfold mapItem in Ha.
    destruct (titleAndSource feed_title item) as [[title source]|]; [|done].
    destruct (dateParse (Item.pubDate item)); [|done].
    injection Ha as <-. cbn [Article.id] in Hid.
    assert (Js.orElse (Item.guid item)
              (tabId +:+ "-" +:+ pretty index +:+ "-" +:+ Item.pubDate item)
            = tabId +:+ "-" +:+ pretty index +:+ "-" +:+ Item.pubDate item) as Hmade
      by (by destruct (Item.guid item) as [[|c g]|]).
    rewrite Hmade in Hid. do 2 apply append_cancel_l in Hid.
    apply digits_dash_inj in Hid; [|apply pretty_N_digits..].
    apply (inj pretty) in Hid. lia.
Qed.

End Identifiers.

(** X18 on the sample feed, none of whose items has a guid. *)
Lemma synthesized_ids_distinct_witness :
  exists mapped,
    mapItems Browser.dateParse Browser.toISOString Browser.toLocaleDateString Browser.firstImgSrc "tab-2" (Api.feed_title Sample.feed) 0 (Api.items Sample.feed)
    = Some mapped
    /\ NoDup (Article.id <$> mapped).
Proof.
  destruct (mapItems Browser.dateParse Browser.toISOString Browser.toLocaleDateString Browser.firstImgSrc "tab-2" (Api.feed_title Sample.feed) 0 (Api.items Sample.feed))
    as [mapped|] eqn:Hmap; [|vm_compute in Hmap; discriminate].
  exists mapped. split; [reflexivity|].
  apply (synthesized_ids_distinct Browser.dateParse Browser.toISOString Browser.toLocaleDateString Browser.firstImgSrc "tab-2" (Api.feed_title Sample.feed)
           (Api.items Sample.feed) mapped Hmap).
  repeat (apply List.Forall_cons; [reflexivity|]). apply List.Forall_nil.
Defined.

(** ** The stored maximum of tabs, written and read back *)

Section StoredMaximum.
Import JsNumber Storage.

Lemma trimStart_digit c s : is_Some (digit 10 c) -> Js.trimStart (String c s) = String c s.
Proof.
  intros Hc. apply trimStart_plain, ws_head_plain. by apply digit_plain in Hc as (? & _).
Qed.

Lemma parseInt10_unsigned c s :
  is_Some (digit 10 c) -> parseInt10 (String c s) = digits 10 None (String c s).
Proof.
  intros Hc. unfold parseInt10. rewrite trimStart_digit by done.
  destruct (digit_plain c Hc) as (_ & Hminus & Hplus).
  destruct (digits 10 None (String c s)) eqn:Hd;
    destruct c as [[] [] [] [] [] [] [] []]; try done; rewrite Hd; done.
Qed.

Lemma parseInt10_negative c s :
  is_Some (digit 10 c) ->
  parseInt10 (String "-" (String c s))
  = match digits 10 None (String c s) with Some n => Some (- n) | None => None end.
Proof.
  intros Hc. unfold parseInt10.
  rewrite (trimStart_plain (String "-" _)) by (by apply ws_head_plain). done.
Qed.

(** X19.  The maximum of tabs written to the storage and read back at the
    next start, for a maximum among the integers a number holds exactly: a
    positive maximum comes back as it was, anything else gives the
    default. *)
Theorem max_tabs_survive_reload (DEFAULT_MAX_TABS maxTabs : Z) :
  Z.abs maxTabs <= 9007199254740991 ->
  loadMaxTabs DEFAULT_MAX_TABS (Some (saveMaxTabs maxTabs))
  = if 0 <? maxTabs then maxTabs else DEFAULT_MAX_TABS.
Proof.
  intros _. unfold saveMaxTabs, pretty, pretty_Z. destruct maxTabs as [|p|p].
  - reflexivity.
  - change (pretty p) with (pretty (N.pos p)).
    destruct (pretty_pos_digits p) as (c & d & -> & Hc & Hval).
    unfold loadMaxTabs. rewrite parseInt10_unsigned, Hval by done. done.
  - change (pretty p) with (pretty (N.pos p)).
    destruct (pretty_pos_digits p) as (c & d & -> & Hc & Hval).
    rewrite append_cons, append_nil_l.
    unfold loadMaxTabs. rewrite parseInt10_negative, Hval by done. done.
Qed.

End StoredMaximum.

(** X19 on the maximum of the constants file. *)
Lemma max_tabs_survive_reload_witness :
  Z.abs 7 <= 9007199254740991
  /\ Storage.loadMaxTabs 5 (Some (Storage.saveMaxTabs 7)) = 7.
Proof.
  assert (Z.abs 7 <= 9007199254740991) as H by (simpl; lia).
  split; [exact H|]. exact (max_tabs_survive_reload 5 7 H).
Defined.

(** ** The summary of an article *)

Section Summary.
Import Js.










(** A character of two code units at the hundredth unit is cut in two: the
    summary ends with its high surrogate, U+D83D, before the dots. *)
Example summary_cuts_surrogate_pair :
  cleanSummary Sample.longItem
  = substring0 99 Sample.longDescription
      +:+ String (ascii_of_N 237) (String (ascii_of_N 160) (String (ascii_of_N 189) ""))
      +:+ "..."
  /\ codeUnits (cleanSummary Sample.longItem) = 103%nat
  /\ String.length (substring0 99 Sample.longDescription) = 99%nat.
Proof. vm_compute. repeat split. Qed.

End Summary.

(** ** Keywords and requests *)

Section Requests.

Lemma search_request_inj (keyword1 keyword2 : string) :
  Js.startsWith keyword1 "http://" || Js.startsWith keyword1 "https://" = false ->
  Js.startsWith keyword2 "http://" || Js.startsWith keyword2 "https://" = false ->
  apiUrl (getRssUrl keyword1) = apiUrl (getRssUrl keyword2) ->
  keyword1 = keyword2.
Proof.
  intros H1 H2 Heq. unfold apiUrl in Heq. apply append_cancel_l in Heq.
  apply (f_equal Uri.percentDecode) in Heq. rewrite !percentDecode_encode in Heq.
  injection Heq as Heq. unfold getRssUrl in Heq. rewrite H1, H2 in Heq.
  apply append_cancel_l in Heq. apply append_cancel_r in Heq.
  apply (f_equal Uri.percentDecode) in Heq. rewrite !percentDecode_encode in Heq.
  congruence.
Qed.

(** X21.  Two search keywords that differ give different feed addresses
    and different requests, and two that give the same request are the
    same keyword: the encoding loses nothing of the keyword. *)
Theorem search_requests_differ (keyword1 keyword2 : string) :
  Js.startsWith keyword1 "http://" || Js.startsWith keyword1 "https://" = false ->
  Js.startsWith keyword2 "http://" || Js.startsWith keyword2 "https://" = false ->
  (keyword1 <> keyword2 ->
   getRssUrl keyword1 <> getRssUrl keyword2
   /\ apiUrl (getRssUrl keyword1) <> apiUrl (getRssUrl keyword2))
  /\ (apiUrl (getRssUrl keyword1) = apiUrl (getRssUrl keyword2) -> keyword1 = keyword2).
Proof.
  intros H1 H2. split; [|by apply search_request_inj].
  intros Hne. split; intros Heq; apply Hne, search_request_inj; congruence.
Qed.

(** X22.  Two tabs added in the editor get the same id exactly when they
    are added at the same reading of the clock. *)
Theorem added_tabs_share_id (now1 now2 : Z) (m : Modal.t) :
  Z.of_nat (length (Modal.editingTabs m)) + 2 <= Modal.editingMaxTabs m ->
  exists tab1 tab2,
    Modal.editingTabs (Modal.handleAddTab now2 (Modal.handleAddTab now1 m))
    = Modal.editingTabs m ++ [tab1; tab2]
    /\ (Tab.id tab1 = Tab.id tab2 <-> now1 = now2).
Proof.
  intros Hroom. unfold Modal.handleAddTab at 2.
  destruct (Z.geb_spec (Z.of_nat (length (Modal.editingTabs m))) (Modal.editingMaxTabs m));
    [lia|].
  unfold Modal.handleAddTab. cbn [Modal.editingTabs Modal.editingMaxTabs Modal.setEditingTabs].
  rewrite length_app. cbn [length].
  destruct (Z.geb_spec (Z.of_nat (length (Modal.editingTabs m) + 1)) (Modal.editingMaxTabs m));
    [lia|].
  cbn [Modal.editingTabs Modal.setEditingTabs]. rewrite <- app_assoc.
  eexists _, _. split; [reflexivity|]. cbn [Tab.id]. split.
  - intros Hid. apply append_cancel_l in Hid. by apply (inj pretty) in Hid.
  - by intros ->.
Qed.

End Requests.

(** X21 on the keywords of the first two default tabs, which differ. *)
Lemma search_requests_differ_witness :
  "バス 減便" <> "バス 実証実験"
  /\ getRssUrl "バス 減便" <> getRssUrl "バス 実証実験"
  /\ apiUrl (getRssUrl "バス 減便") <> apiUrl (getRssUrl "バス 実証実験").
Proof.
  assert ("バス 減便" <> "バス 実証実験") as Hne by discriminate.
  split; [exact Hne|].
  exact (proj1 (search_requests_differ "バス 減便" "バス 実証実験" eq_refl eq_refl) Hne).
Defined.

(** X22 in the editor with the five default tabs and room for seven. *)
Lemma added_tabs_share_id_witness :
  exists tab1 tab2,
    Modal.editingTabs (Modal.handleAddTab Sample.NOON
                         (Modal.handleAddTab Sample.NOON Sample.editor))
    = Modal.editingTabs Sample.editor ++ [tab1; tab2]
    /\ Tab.id tab1 = Tab.id tab2.
Proof.
  destruct (added_tabs_share_id Sample.NOON Sample.NOON Sample.editor
              ltac:(simpl; lia)) as (tab1 & tab2 & Htabs & Hid).
  exists tab1, tab2. split; [exact Htabs | exact (proj2 Hid eq_refl)].
Defined.

(** ** Which tab a request is for *)

Section ActiveTab.

Lemma find_first_with_id (pre post : list Tab.t) (tab : Tab.t) :
  Forall (fun t => Tab.id t <> Tab.id tab) pre ->
  find (fun t => String.eqb (Tab.id t) (Tab.id tab)) (pre ++ tab :: post) = Some tab.
Proof.
  induction 1 as [|t pre Ht _ IH]; simpl.
  - by rewrite String.eqb_refl.
  - apply String.eqb_neq in Ht. by rewrite Ht.
Qed.

Lemma fetchNews_begin_awaiting tabId currentTabs now st waiting request :
  fetchNews_begin tabId currentTabs now st = Awaiting waiting request ->
  loading waiting = true /\ error waiting = None
  /\ activeTabId waiting = activeTabId st /\ tabs waiting = tabs st
  /\ exists tab, tab ∈ currentTabs /\ Tab.id tab = tabId
                 /\ request = apiUrl (getRssUrl (Tab.keyword tab)).
Proof.
  unfold fetchNews_begin.
  destruct (find _ currentTabs) as [tab|] eqn:Hfind; [|done].
  apply find_some in Hfind as [Hin Hid]. apply String.eqb_eq in Hid.
  apply list_elem_of_In in Hin.
  cbn [newsCache setError setLoading].
  destruct (newsCache st !! tabId) as [cached|];
    [destruct (now - timestamp cached <? CACHE_DURATION); [done|]|];
    intros [= <- <-]; (split_and!; [done..|by exists tab]).
Qed.

(** X23.  Where several tabs have the same id, the first of them is the
    one that counts: its keyword is fetched and its label is shown,
    whichever of them the user picked. *)
Theorem first_tab_with_id_wins (pre post : list Tab.t) (tab : Tab.t) (now : Z)
    (st : App) :
  Forall (fun t => Tab.id t <> Tab.id tab) pre ->
  tabs st = pre ++ tab :: post ->
  newsCache st !! Tab.id tab = None ->
  act (SwitchTab (Tab.id tab)) now st
  = (if String.eqb (Tab.id tab) (activeTabId st) then Returned st
     else Awaiting (setError None (setLoading true (setActiveTabId (Tab.id tab) st)))
            (apiUrl (getRssUrl (Tab.keyword tab))))
  /\ activeTabLabel (setActiveTabId (Tab.id tab) st) = Tab.label tab.
Proof.
  intros Hpre Htabs Hmiss. split.
  - cbn [act]. destruct (String.eqb (Tab.id tab) (activeTabId st)); [done|].
    unfold fetchNews_begin. cbn [tabs newsCache setActiveTabId setError setLoading].
    by rewrite Htabs, find_first_with_id, Hmiss.
  - unfold activeTabLabel. cbn [tabs activeTabId setActiveTabId].
    by rewrite Htabs, find_first_with_id.
Qed.

(** X24.  Every request [App] sends on an action of the user is for the
    tab that is active when it is sent, with the keyword of a tab of that
    id in the list as it is then; and while the answer is awaited the
    spinner is what shows. *)
Theorem requests_are_for_the_active_tab (action : UserAction) (now : Z) (st : App)
    (waiting : App) (request : string) :
  act action now st = Awaiting waiting request ->
  render waiting = Spinner
  /\ exists tab, tab ∈ tabs waiting
                 /\ Tab.id tab = activeTabId waiting
                 /\ request = apiUrl (getRssUrl (Tab.keyword tab)).
Proof.
  destruct action; cbn [act]; try done.
  - destruct (String.eqb tabId (activeTabId st)); [done|].
    intros H. apply fetchNews_begin_awaiting in H
      as (Hload & _ & Hactive & Htabs & tab & Hin & Hid & Hreq).
    split; [unfold render; by rewrite Hload|].
    exists tab. rewrite Hactive, Htabs. done.
  - by case_bool_decide.
  - unfold handleSaveSettings.
    match goal with
    | |- match fetchNews_begin ?t ?c ?n ?s with _ => _ end = _ -> _ =>
        destruct (fetchNews_begin t c n s) as [|st' request'] eqn:Hbegin
    end; [done|].
    intros [= <- <-].
    apply fetchNews_begin_awaiting in Hbegin
      as (Hload & _ & Hactive & Htabs & tab & Hin & Hid & Hreq).
    split; [unfold render; simpl; by rewrite Hload|].
    exists tab. simpl. rewrite Hactive, Htabs. done.
  - unfold forceRefresh. intros H. apply fetchNews_begin_awaiting in H
      as (Hload & _ & Hactive & Htabs & tab & Hin & Hid & Hreq).
    split; [unfold render; by rewrite Hload|].
    exists tab. rewrite Hactive, Htabs. done.
Qed.

End ActiveTab.

(** X23 on two tabs added at one reading of the clock, the second with
    another keyword: going to it fetches the keyword of the first. *)
Lemma first_tab_with_id_wins_witness :
  let added := Tab.mk ("tab-" +:+ pretty Sample.NOON) "新規タブ" "fa-hashtag" "ニュース" in
  let edited := Tab.mk ("tab-" +:+ pretty Sample.NOON) "天気" "fa-hashtag" "天気" in
  let st := setTabs (Sample.DEFAULT_TABS ++ [added; edited]) Sample.appOnSecond in
  act (SwitchTab (Tab.id edited)) Sample.LATER st
  = Awaiting (setError None (setLoading true (setActiveTabId (Tab.id edited) st)))
      (apiUrl (getRssUrl "ニュース")).
Proof.
  intros added edited st.
  assert (Forall (fun t => Tab.id t <> Tab.id added) Sample.DEFAULT_TABS) as Hpre.
  { repeat (apply List.Forall_cons; [discriminate|]). apply List.Forall_nil. }
  exact (proj1 (first_tab_with_id_wins Sample.DEFAULT_TABS [edited] added Sample.LATER st
                  Hpre eq_refl eq_refl)).
Defined.

(** X24 on a change of tab with nothing cached. *)
Lemma requests_are_for_the_active_tab_witness :
  exists waiting request,
    act (SwitchTab "tab-1") Sample.NOON Sample.appOnSecond = Awaiting waiting request
    /\ render waiting = Spinner.
Proof.
  eexists _, _. split; [reflexivity|].
  exact (proj1 (requests_are_for_the_active_tab (SwitchTab "tab-1") Sample.NOON
                  Sample.appOnSecond _ _ eq_refl)).
Defined.
